(** * A food-delivery order service: shallow embedding of [server.go]

    The service is one Go file.  Its HTTP handlers talk to three external
    collaborators: a Redis cache in front of static JSON seed files, a Kafka
    writer for the order topic and a Kafka writer for the notification topic;
    a background goroutine relays the order topic to the notification topic.

    The embedding keeps the shape of the source:
    - structs are records, [float64] is Rocq's primitive binary64 float,
      Go's [int] is [Z], a slice that the code compares with [nil] is an
      [option (list _)];
    - Redis, the file system and the Kafka topics are finite maps inside an
      explicit [World], threaded through a small state monad;
    - a Go [(value, error)] pair is a [result];
    - every call to an external collaborator (and every log line) appends an
      [Event] to the world's trace, so that "no side effect" is a statement
      about the trace and the stores;
    - whether a network call fails is not decided by the program: the world
      carries the outcomes of the calls still to come ([faults]);
    - the Go libraries whose internals are not part of this repository
      (encoding/json, x/exp/rand, the float verbs of fmt) are an interface
      [GoLib]; what the proofs need of them is the contract [GoLibOk]. *)

From Stdlib Require Import ZArith String List Floats Lia.
From stdpp Require Import base option gmap strings list pretty.

Local Open Scope Z_scope.

(** ** Data model (server.go, lines 23-81) *)

Definition float64 : Type := float.

(** [float64(n)] for a Go [int]: the nearest binary64, ties to even. *)
Definition float64_of_int (n : Z) : float64 :=
  SF2Prim (binary_normalize prec emax n 0 false).

Record MenuItem := {
  ID : string;
  Name : string;
  Price : float64;
  Description : string
}.

Record RestaurantMenu := {
  RestaurantID : string;
  Menu : list MenuItem
}.

(** [Quantity] is a Go [int]; the request decoder admits the 64-bit signed
    integers, negative ones and zero included. *)
Record OrderItem := {
  MenuID : string;
  Quantity : Z
}.

(** [Items] is [None] for Go's nil slice (the field absent or null in the
    request) and [Some []] for an empty, non-nil slice. *)
Record Order := {
  OrderID : string;
  Order_RestaurantID : string;
  Items : option (list OrderItem);
  TotalAmount : float64;
  Status : string
}.

Record DeliverRequest := {
  Deliver_OrderID : string;
  Deliver_RiderID : string
}.

Record SendNotificationRequest := {
  Recipient : string;
  Notification_OrderID : string;
  Message : string
}.

(** Go's [(value, error)]: the error carries its text. *)
Inductive result (A : Type) : Type :=
| Ok (a : A)
| Err (msg : string).
Arguments Ok {A} a.
Arguments Err {A} msg.

(** ** OrderPricer: the pricing loops of [placeOrder] (lines 294-301) *)

(** The inner loop: one order item against every menu entry, no [break].
    The product and the sum are each rounded to binary64, as the compiler
    emits them where it does not fuse the two (amd64 by default). *)
Definition price_item (item : OrderItem) (menu : list MenuItem)
    (totalAmount : float64) : float64 :=
  fold_left
    (fun total menuItem =>
       if String.eqb (MenuID item) (ID menuItem)
       then (total + Price menuItem * float64_of_int (Quantity item))%float
       else total)
    menu totalAmount.

(** The outer loop over the requested items. *)
Definition price_items (items : list OrderItem) (menu : list MenuItem)
    (totalAmount : float64) : float64 :=
  fold_left (fun total item => price_item item menu total) items totalAmount.

(** [totalAmount] as [placeOrder] computes it: the running total starts at
    [0.0]; ranging over a nil slice runs no iteration. *)
Definition order_total (items : option (list OrderItem)) (menu : RestaurantMenu)
    : float64 :=
  price_items (default [] items) (Menu menu) 0%float.

(** ** The world outside the process *)

(** One entry per call the program makes to a collaborator, in the order the
    calls are made.  A log line records its format string only. *)
Inductive Event : Type :=
| ERedisGet (key : string)
| ERedisSet (key value : string) (ttl_seconds : Z)
| EReadFile (path : string)
| ERandIntn (n : Z)
| EKafkaWrite (topic payload : string)
| EKafkaRead (topic : string)
| EKafkaCommit (topic : string) (offset : nat)
| ELog (format : string)
| EFatal (format : string).

(** [redis]: the cache, key to serialized value (an expired entry is an
    absent one).  [files]: the seed files by path.  [kafka]: each topic's
    log, oldest message first.  [reader_offset]: the next offset the relay's
    reader fetches; [committed_offset]: what its consumer group has
    committed.  [rng]: the state of the process-wide generator.  [faults]:
    for each network call still to come, [None] when it will succeed and
    [Some msg] when it will fail with that error; an empty list means no
    failure. *)
Record World := {
  redis : gmap string string;
  files : gmap string string;
  kafka : gmap string (list string);
  reader_offset : nat;
  committed_offset : nat;
  rng : Z;
  faults : list (option string);
  trace : list Event
}.

Definition set_redis (f : gmap string string → gmap string string) (w : World) : World :=
  {| redis := f (redis w); files := files w; kafka := kafka w;
     reader_offset := reader_offset w; committed_offset := committed_offset w;
     rng := rng w; faults := faults w; trace := trace w |}.

Definition set_kafka (f : gmap string (list string) → gmap string (list string))
    (w : World) : World :=
  {| redis := redis w; files := files w; kafka := f (kafka w);
     reader_offset := reader_offset w; committed_offset := committed_offset w;
     rng := rng w; faults := faults w; trace := trace w |}.

Definition set_reader_offset (n : nat) (w : World) : World :=
  {| redis := redis w; files := files w; kafka := kafka w;
     reader_offset := n; committed_offset := committed_offset w;
     rng := rng w; faults := faults w; trace := trace w |}.

Definition set_committed_offset (n : nat) (w : World) : World :=
  {| redis := redis w; files := files w; kafka := kafka w;
     reader_offset := reader_offset w; committed_offset := n;
     rng := rng w; faults := faults w; trace := trace w |}.

Definition set_rng (s : Z) (w : World) : World :=
  {| redis := redis w; files := files w; kafka := kafka w;
     reader_offset := reader_offset w; committed_offset := committed_offset w;
     rng := s; faults := faults w; trace := trace w |}.

Definition set_faults (fs : list (option string)) (w : World) : World :=
  {| redis := redis w; files := files w; kafka := kafka w;
     reader_offset := reader_offset w; committed_offset := committed_offset w;
     rng := rng w; faults := fs; trace := trace w |}.

Definition set_trace (t : list Event) (w : World) : World :=
  {| redis := redis w; files := files w; kafka := kafka w;
     reader_offset := reader_offset w; committed_offset := committed_offset w;
     rng := rng w; faults := faults w; trace := t |}.

(** ** The state monad the handlers run in *)

Definition M (A : Type) : Type := World → A * World.

Definition ret {A} (a : A) : M A := fun w => (a, w).

Definition bind {A B} (m : M A) (k : A → M B) : M B :=
  fun w => let (a, w') := m w in k a w'.

#[global] Instance M_ret : MRet M := @ret.
#[global] Instance M_bind : MBind M := fun A B k m => bind m k.

Definition gets {A} (f : World → A) : M A := fun w => (f w, w).

Definition modify (f : World → World) : M unit := fun w => (tt, f w).

Definition emit (e : Event) : M unit :=
  modify (fun w => set_trace (trace w ++ [e]) w).

(** The outcome of the next network call. *)
Definition next_fault : M (option string) :=
  fs ← gets faults;
  modify (set_faults (tail fs));;
  ret (hd None fs).

(** Logging ([fmt.Printf], [fmt.Println], [log.Printf]). *)
Definition log (format : string) : M unit := emit (ELog format).

(** ** Redis (go-redis client) *)

Inductive RedisReply : Type :=
| RedisValue (v : string)
| RedisNil                     (* the error value [redis.Nil]: key absent *)
| RedisError (msg : string).   (* any other error *)

(** [redisClient.Get(ctx, key).Result()] *)
Definition redis_Get (key : string) : M RedisReply :=
  emit (ERedisGet key);;
  f ← next_fault;
  match f with
  | Some msg => ret (RedisError msg)
  | None =>
      store ← gets redis;
      ret (match store !! key with
           | Some v => RedisValue v
           | None => RedisNil
           end)
  end.

(** One hour, [time.Hour], in seconds. *)
Definition time_Hour : Z := 3600.

(** [redisClient.Set(ctx, key, value, ttl)]: the callers drop its result. *)
Definition redis_Set (key value : string) (ttl : Z) : M unit :=
  emit (ERedisSet key value ttl);;
  f ← next_fault;
  match f with
  | Some _ => ret tt
  | None => modify (set_redis (insert key value))
  end.

(** ** The seed files ([os.ReadFile]) *)

Definition os_ReadFile (path : string) : M (result string) :=
  emit (EReadFile path);;
  fs ← gets files;
  ret (match fs !! path with
       | Some content => Ok content
       | None => Err ("open " +:+ path +:+ ": no such file or directory")
       end).

(** ** Kafka (kafka-go writer and reader) *)

Record Writer := { Writer_Topic : string }.

(** The two writers [main] builds (lines 90-101). *)
Definition kafkaWriter : Writer := {| Writer_Topic := "orders" |}.
Definition kafkaNotiWriter : Writer := {| Writer_Topic := "order-delivered" |}.

(** [wr.WriteMessages(ctx, kafka.Message{Value: payload})]: on success the
    message is appended to the writer's topic; [Some msg] is the error. *)
Definition WriteMessages (wr : Writer) (payload : string) : M (option string) :=
  emit (EKafkaWrite (Writer_Topic wr) payload);;
  f ← next_fault;
  match f with
  | Some msg => ret (Some msg)
  | None =>
      modify (set_kafka (fun k =>
        <[Writer_Topic wr := default [] (k !! Writer_Topic wr) ++ [payload]]> k));;
      ret None
  end.

Record ReaderConfig := { GroupID : string; Reader_Topic : string }.

Record KafkaMessage := { Offset : nat; Value : string }.

Inductive ReadReply : Type :=
| ReadMsg (msg : KafkaMessage)
| ReadBlocked                 (* no message yet: the call has not returned *)
| ReadError (msg : string).

(** [r.ReadMessage(ctx)]: the next message of the topic. *)
Definition ReadMessage (r : ReaderConfig) : M ReadReply :=
  emit (EKafkaRead (Reader_Topic r));;
  f ← next_fault;
  match f with
  | Some msg => ret (ReadError msg)
  | None =>
      topics ← gets kafka;
      offset ← gets reader_offset;
      match default [] (topics !! Reader_Topic r) !! offset with
      | Some v =>
          modify (set_reader_offset (S offset));;
          ret (ReadMsg {| Offset := offset; Value := v |})
      | None => ret ReadBlocked
      end
  end.

(** [r.CommitMessages(ctx, msg)]: the caller drops its result. *)
Definition CommitMessages (r : ReaderConfig) (msg : KafkaMessage) : M unit :=
  emit (EKafkaCommit (Reader_Topic r) (Offset msg));;
  f ← next_fault;
  match f with
  | Some _ => ret tt
  | None => modify (set_committed_offset (S (Offset msg)))
  end.

(** ** HTTP responses ([c.JSON(code, value)]) *)

(** A JSON object with string values, its keys in the order encoding/json
    writes them (sorted), or a marshalled [RestaurantMenu]. *)
Inductive Body : Type :=
| JSONObject (fields : list (string * string))
| JSONMenu (menu : RestaurantMenu).

Record Response := { code : Z; body : Body }.

Definition http_StatusOK : Z := 200.
Definition http_StatusBadRequest : Z := 400.
Definition http_StatusInternalServerError : Z := 500.

Definition JSON (status : Z) (value : Body) : M Response :=
  ret {| code := status; body := value |}.

Definition error_body (msg : string) : Body := JSONObject [("error", msg)].

(** ** The Go libraries the handlers call *)

(** [json_Unmarshal] and [json_Marshal] are encoding/json at the type
    [RestaurantMenu]; [rand_Intn n s] is x/exp/rand's [Intn(n)] from the
    generator state [s], with the next state; [fmt_float p x] is what the
    verb [%.pf] prints for [x]. *)
Class GoLib := {
  json_Unmarshal : string → result RestaurantMenu;
  json_Marshal : RestaurantMenu → result string;
  rand_Intn : Z → Z → Z * Z;
  fmt_float : nat → float64 → string
}.

(** What the libraries promise: a value that encoding/json decoded can be
    encoded, and decodes to itself again; [Intn(n)] is in [[0, n)]. *)
Class GoLibOk (L : GoLib) : Prop := {
  json_roundtrip : ∀ data menu,
    json_Unmarshal data = Ok menu →
    ∃ data', json_Marshal menu = Ok data' ∧ json_Unmarshal data' = Ok menu;
  rand_Intn_range : ∀ n s, 0 < n → 0 ≤ (rand_Intn n s).1 < n
}.

Section Server.
Context {L : GoLib}.

(** [rand.Intn(n)] on the process-wide generator. *)
Definition Intn (n : Z) : M Z :=
  emit (ERandIntn n);;
  s ← gets rng;
  modify (set_rng (rand_Intn n s).2);;
  ret (rand_Intn n s).1.

(** [menuJSON, _ := json.Marshal(menu)]: the error is dropped, and the nil
    slice left in its place is written as the empty string. *)
Definition marshal_dropping_error (menu : RestaurantMenu) : string :=
  match json_Marshal menu with
  | Ok data => data
  | Err _ => ""
  end.

(** ** CatalogCache *)

(** [fetchMenuFromFile] (lines 340-361) *)
Definition fetchMenuFromFile (restaurantID : string) : M (result RestaurantMenu) :=
  file ← os_ReadFile "menu.json";
  match file with
  | Err e => ret (Err ("failed to read menu file: " +:+ e))
  | Ok file =>
      match json_Unmarshal file with
      | Err e => ret (Err ("failed to parse menu JSON: " +:+ e))
      | Ok menuData =>
          if negb (String.eqb (RestaurantID menuData) restaurantID)
          then ret (Err ("menu for restaurant " +:+ restaurantID +:+ " not found"))
          else
            redis_Set restaurantID (marshal_dropping_error menuData) time_Hour;;
            ret (Ok menuData)
      end
  end.

(** [getMenuFromCache] (lines 323-338) *)
Definition getMenuFromCache (restaurantID : string) : M (result RestaurantMenu) :=
  reply ← redis_Get restaurantID;
  match reply with
  | RedisNil => fetchMenuFromFile restaurantID
  | RedisError e => ret (Err ("redis error: " +:+ e))
  | RedisValue menuData =>
      match json_Unmarshal menuData with
      | Err e => ret (Err ("failed to parse cached menu: " +:+ e))
      | Ok menu => ret (Ok menu)
      end
  end.

(** [fetchMenuFromJSON] (lines 154-185) *)
Definition fetchMenuFromJSON (restaurantID : string) : M (result RestaurantMenu) :=
  file ← os_ReadFile "menu.json";
  match file with
  | Err e => log "Error reading file %s: %v\n";; ret (Err e)
  | Ok file =>
      log "File contents:";;
      match json_Unmarshal file with
      | Err e => log "Error unmarshaling JSON: %v\n";; ret (Err e)
      | Ok menuData =>
          log "Parsed menu data: %+v\n";;
          if negb (String.eqb (RestaurantID menuData) restaurantID)
          then
            log "Restaurant ID mismatch: expected %s, got %s\n";;
            ret (Err ("menu for restaurant " +:+ restaurantID +:+ " not found"))
          else
            ret (Ok {| RestaurantID := RestaurantID menuData; Menu := Menu menuData |})
      end
  end.

(** [getMenu] (lines 117-152): the handler of GET /menu; [restaurantID] is
    the query parameter, empty when it is missing. *)
Definition getMenu (restaurantID : string) : M Response :=
  if String.eqb restaurantID ""
  then JSON http_StatusBadRequest (error_body "restaurant_id is required")
  else
    log "view menu called";;
    reply ← redis_Get restaurantID;
    match reply with
    | RedisNil =>
        log "Cache miss, fetching from database...";;
        fetched ← fetchMenuFromJSON restaurantID;
        match fetched with
        | Err _ =>
            log "Error fetching menu from database: %v\n";;
            JSON http_StatusInternalServerError (error_body "Failed to fetch menu")
        | Ok menu =>
            redis_Set restaurantID (marshal_dropping_error menu) time_Hour;;
            log "view menu from file";;
            JSON http_StatusOK (JSONMenu menu)
        end
    | RedisError _ =>
        log "Error fetching from Redis: %v\n";;
        JSON http_StatusInternalServerError (error_body "Redis error")
    | RedisValue menuData =>
        log "view menu from cached";;
        match json_Unmarshal menuData with
        | Err _ =>
            log "Error unmarshaling cached menu: %v\n";;
            JSON http_StatusInternalServerError (error_body "Failed to parse cached menu")
        | Ok cachedMenu => JSON http_StatusOK (JSONMenu cachedMenu)
        end
    end.

(** ** OrderLifecycle: Create *)

(** [publishOrderEvent] (lines 363-375); [None] is Go's nil error. *)
Definition publishOrderEvent (order : Order) : M (option string) :=
  let message :=
    "Order Created: " +:+ OrderID order +:+ " | Restaurant: "
      +:+ Order_RestaurantID order +:+ " | Total: " +:+ fmt_float 2 (TotalAmount order) in
  err ← WriteMessages kafkaWriter message;
  match err with
  | Some e => ret (Some ("failed to publish order event to Kafka: " +:+ e))
  | None => log "Order event published: %s";; ret None
  end.

(** [fmt.Sprintf("%d", n)] *)
Definition Sprintf_d (n : Z) : string := pretty n.

(** [placeOrder] (lines 279-321): the handler of POST /order.  [bound] is
    what [c.Bind(&order)] made of the request: the decoded order, or the
    binding error. *)
Definition placeOrder (bound : result Order) : M Response :=
  match bound with
  | Err _ => JSON http_StatusBadRequest (error_body "Invalid order details")
  | Ok order =>
      if String.eqb (Order_RestaurantID order) "" || bool_decide (Items order = None)
      then JSON http_StatusBadRequest (error_body "restaurant_id and items are required")
      else
        fetched ← getMenuFromCache (Order_RestaurantID order);
        match fetched with
        | Err _ =>
            JSON http_StatusInternalServerError (error_body "Failed to fetch restaurant menu")
        | Ok menu =>
            let totalAmount := order_total (Items order) menu in
            n ← Intn 10000;
            let order :=
              {| OrderID := Sprintf_d n;
                 Order_RestaurantID := Order_RestaurantID order;
                 Items := Items order;
                 TotalAmount := totalAmount;
                 Status := "created" |} in
            log "Order information: RestaurantID: %s,OrderID: %s, Menu: %+v, Total Amount: %f";;
            err ← publishOrderEvent order;
            match err with
            | Some _ =>
                JSON http_StatusInternalServerError (error_body "Failed to publish order event")
            | None =>
                log "information order id %s has been paid with order total amount";;
                JSON http_StatusOK
                  (JSONObject [("order_id", OrderID order); ("status", Status order)])
            end
        end
  end.

(** ** OrderLifecycle: ConfirmDelivery *)

(** [publishOrderDeliveredEvent] (lines 468-481) *)
Definition publishOrderDeliveredEvent (orderID : string) : M (option string) :=
  let message := "Order " +:+ orderID +:+ " Delivered" in
  log "Publishing to Kafka: %s";;
  err ← WriteMessages kafkaWriter message;
  match err with
  | Some e => ret (Some ("failed to publish to Kafka: " +:+ e))
  | None => log "Event published to Kafka: %s";; ret None
  end.

(** [confirmDelivery] (lines 448-466): the handler of POST /rider/order/deliver *)
Definition confirmDelivery (bound : result DeliverRequest) : M Response :=
  match bound with
  | Err _ => JSON http_StatusBadRequest (error_body "Invalid request")
  | Ok req =>
      if String.eqb (Deliver_OrderID req) "" || String.eqb (Deliver_RiderID req) ""
      then JSON http_StatusBadRequest (error_body "Missing order_id or rider_id")
      else
        log "Rider %s delivering order %s";;
        err ← publishOrderDeliveredEvent (Deliver_OrderID req);
        match err with
        | Some e => JSON http_StatusInternalServerError (error_body e)
        | None => JSON http_StatusOK (JSONObject [("status", "Delivered")])
        end
  end.

(** ** Notifications *)

(** [sendNotification] (lines 483-496): the handler of POST /notification/send *)
Definition sendNotification (bound : result SendNotificationRequest) : M Response :=
  match bound with
  | Err _ => JSON http_StatusBadRequest (error_body "Invalid request")
  | Ok req =>
      if negb (String.eqb (Recipient req) "customer")
         && negb (String.eqb (Recipient req) "restaurant")
         && negb (String.eqb (Recipient req) "rider")
      then JSON http_StatusBadRequest (error_body "Invalid recipient")
      else
        log "Sending notification to %s for order %s: %s";;
        JSON http_StatusOK (JSONObject [("status", "sent")])
  end.

(** [processOrderDeliveredEvent] (lines 516-521): the result of the write is
    dropped. *)
Definition processOrderDeliveredEvent (message : string) : M unit :=
  WriteMessages kafkaNotiWriter ("Notification: " +:+ message);;
  log "Notification: %s".

(** The reader [consumeOrderDeliveredEvent] builds (lines 499-503). *)
Definition orderReader : ReaderConfig :=
  {| GroupID := "notification-service-group"; Reader_Topic := "orders" |}.

(** Where the relay goroutine stands after an iteration: it goes round
    again, it waits inside [ReadMessage], or [log.Fatalf] has ended the
    process. *)
Inductive Relay : Type := Looping | Waiting | Exited.

(** One turn of the [for] loop of [consumeOrderDeliveredEvent] (lines 505-513). *)
Definition relay_iteration : M Relay :=
  reply ← ReadMessage orderReader;
  match reply with
  | ReadError _ => emit (EFatal "error reading message: %v");; ret Exited
  | ReadBlocked => ret Waiting
  | ReadMsg msg =>
      CommitMessages orderReader msg;;
      processOrderDeliveredEvent (Value msg);;
      ret Looping
  end.

(** [consumeOrderDeliveredEvent] (lines 498-514), its first [turns]
    iterations: the loop itself has no exit. *)
Fixpoint consumeOrderDeliveredEvent (turns : nat) : M Relay :=
  match turns with
  | O => ret Looping
  | S turns' =>
      st ← relay_iteration;
      match st with
      | Looping => consumeOrderDeliveredEvent turns'
      | Waiting => ret Waiting
      | Exited => ret Exited
      end
  end.

End Server.

(** ** A concrete instance of the libraries, to run the handlers *)

Module Demo.

(** [num / den] rounded to the nearest integer, ties to even
    ([0 ≤ num], [0 < den]). *)
Definition div_half_even (num den : Z) : Z :=
  let q := num / den in
  let r := num mod den in
  if (den <? 2 * r) || ((den =? 2 * r) && Z.odd q) then q + 1 else q.

Definition zeros (n : nat) : string := String.concat "" (repeat "0" n).

(** The digits of [scaled / 10^p] with [p] decimals. *)
Definition fixed_digits (p : nat) (scaled : Z) : string :=
  let unit := 10 ^ Z.of_nat p in
  let frac := pretty (scaled mod unit) in
  pretty (scaled / unit)
    +:+ match p with
        | O => ""
        | _ => "." +:+ zeros (p - String.length frac) +:+ frac
        end.

(** The verb [%.pf] of fmt on a binary64: the exact value rounded to [p]
    decimals, ties to even. *)
Definition format_f (p : nat) (x : float64) : string :=
  match Prim2SF x with
  | S754_nan => "NaN"
  | S754_infinity s => if s then "-Inf" else "+Inf"
  | S754_zero s => (if s then "-" else "") +:+ fixed_digits p 0
  | S754_finite s m e =>
      let scaled :=
        if 0 <=? e then Z.pos m * 2 ^ e * 10 ^ Z.of_nat p
        else div_half_even (Z.pos m * 10 ^ Z.of_nat p) (2 ^ (- e)) in
      (if s then "-" else "") +:+ fixed_digits p scaled
  end.

(** A linear congruential generator on 64 bits; [Intn n] reduces its state. *)
Definition lcg_Intn (n s : Z) : Z * Z :=
  (s mod n, (6364136223846793005 * s + 1442695040888963407) mod 2 ^ 64).

(** The seed menu of the specification's scenarios. *)
Definition menu_r1 : RestaurantMenu :=
  {| RestaurantID := "r1";
     Menu := [ {| ID := "m1"; Name := "Pad Thai"; Price := 10%float; Description := "" |};
               {| ID := "m2"; Name := "Iced Tea"; Price := 5%float; Description := "" |} ] |}.

(** A codec that knows two documents, both for [menu_r1]: the text of the
    seed file and the text [json.Marshal] writes. *)
Definition seed_text : string := "menu.json: r1 [m1 10, m2 5]".
Definition marshalled_text : string := "r1 [m1 10, m2 5]".

Definition unmarshal (data : string) : result RestaurantMenu :=
  if String.eqb data seed_text || String.eqb data marshalled_text
  then Ok menu_r1
  else Err "invalid character".

Definition marshal (menu : RestaurantMenu) : result string :=
  if String.eqb (RestaurantID menu) "r1"
  then Ok marshalled_text
  else Err "unsupported value".

#[export] Instance lib : GoLib :=
  {| json_Unmarshal := unmarshal;
     json_Marshal := marshal;
     rand_Intn := lcg_Intn;
     fmt_float := format_f |}.

(** A freshly started process: empty cache, the seed file in place, no
    message on any topic, every network call succeeding. *)
Definition fresh : World :=
  {| redis := ∅;
     files := {[ "menu.json" := seed_text ]};
     kafka := ∅;
     reader_offset := 0;
     committed_offset := 0;
     rng := 20260042;
     faults := [];
     trace := [] |}.

Definition with_faults (fs : list (option string)) (w : World) : World :=
  set_faults fs w.

Definition order_r1 (items : option (list OrderItem)) : Order :=
  {| OrderID := ""; Order_RestaurantID := "r1"; Items := items;
     TotalAmount := 0%float; Status := "" |}.

Definition two_items : list OrderItem :=
  [ {| MenuID := "m1"; Quantity := 2 |}; {| MenuID := "m2"; Quantity := 1 |} ].

End Demo.

(** ** OrderPricer as the specification words it *)

(** "Find the MenuItem with matching identifier in the menu": the first
    entry of the menu with that identifier. *)
Definition find_menu_item (id : string) (menu : list MenuItem) : option MenuItem :=
  List.find (fun menuItem => String.eqb id (ID menuItem)) menu.

(** "If found, add price * quantity to the running total"; an item that is
    not found leaves the total as it is. *)
Definition spec_total (items : list OrderItem) (menu : RestaurantMenu) : float64 :=
  fold_left
    (fun total item =>
       match find_menu_item (MenuID item) (Menu menu) with
       | Some menuItem => (total + Price menuItem * float64_of_int (Quantity item))%float
       | None => total
       end)
    items 0%float.

(** ** What the cache serves *)

Section Views.
Context {L : GoLib}.

(** The record a Get of [restaurantID] is bound to return in [w] if its cache
    read does not fail: what the entry under that key decodes to or, with no
    entry, what the seed file decodes to when it is that restaurant's menu. *)
Definition serves (restaurantID : string) (w : World) (menu : RestaurantMenu) : Prop :=
  match redis w !! restaurantID with
  | Some data => json_Unmarshal data = Ok menu
  | None =>
      ∃ file, files w !! "menu.json" = Some file
              ∧ json_Unmarshal file = Ok menu
              ∧ RestaurantID menu = restaurantID
  end.

(** [n] Gets of the same key in a row, with their results in order. *)
Fixpoint repeated_Get (restaurantID : string) (n : nat) : M (list (result RestaurantMenu)) :=
  match n with
  | O => mret []
  | S n' =>
      r ← getMenuFromCache restaurantID;
      rs ← repeated_Get restaurantID n';
      mret (r :: rs)
  end.

End Views.

(** ** What the relay leaves in the trace *)

(** The calls of one turn of the relay's loop on the message [value] found at
    [offset]. *)
Definition iteration_events (offset : nat) (value : string) : list Event :=
  [ EKafkaRead "orders";
    EKafkaCommit "orders" offset;
    EKafkaWrite "order-delivered" ("Notification: " +:+ value);
    ELog "Notification: %s" ].

(** The calls of [k] turns in a row, from [offset] on, over the order
    topic's log. *)
Fixpoint relay_events (log : list string) (offset : nat) (k : nat) : list Event :=
  match k with
  | O => []
  | S k' =>
      iteration_events offset (default "" (log !! offset))
        ++ relay_events log (S offset) k'
  end.

(** A trace tail with no commit and no write in it. *)
Definition quiet (tail : list Event) : Prop :=
  ∀ e, e ∈ tail →
    (∀ topic payload, e ≠ EKafkaWrite topic payload)
    ∧ (∀ topic offset, e ≠ EKafkaCommit topic offset).

(** The order topic's log. *)
Definition orders_log (w : World) : list string :=
  default [] (kafka w !! "orders").

(** ** What the seed file holds *)

Section Seed.
Context {L : GoLib}.

(** What the seed file holds for [restaurantID]: the menu it decodes to, when
    it is there, decodes, and is that restaurant's. *)
Definition seeded (restaurantID : string) (w : World) (menu : RestaurantMenu) : Prop :=
  ∃ file, files w !! "menu.json" = Some file
          ∧ json_Unmarshal file = Ok menu
          ∧ RestaurantID menu = restaurantID.

End Seed.

(** ** OrderLifecycle: Accept and ConfirmPickup *)

Record AcceptOrderRequest := {
  Accept_OrderID : string;
  Accept_RestaurantID : string
}.

Record PickupRequest := {
  Pickup_OrderID : string;
  Pickup_RiderID : string
}.

(** [publishAcceptOrderEvent] (lines 402-415) *)
Definition publishAcceptOrderEvent (orderID : string) : M (option string) :=
  let message := "Order " +:+ orderID +:+ " Accept Order" in
  log "Publishing to Kafka: %s";;
  err ← WriteMessages kafkaWriter message;
  match err with
  | Some e => mret (Some ("failed to publish to Kafka: " +:+ e))
  | None => log "Event published to Kafka: %s";; mret None
  end.

(** [acceptOrder] (lines 377-400): the handler of POST /restaurant/order/accept *)
Definition acceptOrder (bound : result AcceptOrderRequest) : M Response :=
  match bound with
  | Err _ => JSON http_StatusBadRequest (error_body "Invalid request body")
  | Ok req =>
      if String.eqb (Accept_OrderID req) "" || String.eqb (Accept_RestaurantID req) ""
      then JSON http_StatusBadRequest (error_body "Missing order_id or restaurant_id")
      else
        log "Accepting order with ID: %s for restaurant ID: %s\n";;
        err ← publishAcceptOrderEvent (Accept_OrderID req);
        match err with
        | Some e => JSON http_StatusInternalServerError (error_body e)
        | None => JSON http_StatusOK (JSONObject [("status", "accepted")])
        end
  end.

(** [publishConfirmPickupEvent] (lines 433-446) *)
Definition publishConfirmPickupEvent (orderID : string) : M (option string) :=
  let message := "Order " +:+ orderID +:+ " Confirm Pickup" in
  log "Publishing to Kafka: %s";;
  err ← WriteMessages kafkaWriter message;
  match err with
  | Some e => mret (Some ("failed to publish to Kafka: " +:+ e))
  | None => log "Event published to Kafka: %s";; mret None
  end.

(** [confirmPickup] (lines 417-431): the handler of POST /rider/order/pickup;
    it compares no field with the empty string. *)
Definition confirmPickup (bound : result PickupRequest) : M Response :=
  match bound with
  | Err _ => JSON http_StatusBadRequest (error_body "Invalid request")
  | Ok req =>
      log "Rider %s confirmed pickup for order %s";;
      err ← publishConfirmPickupEvent (Pickup_OrderID req);
      match err with
      | Some e => JSON http_StatusInternalServerError (error_body e)
      | None => JSON http_StatusOK (JSONObject [("status", "picked_up")])
      end
  end.

(** ** The restaurant and rider lists *)

Record Restaurant := {
  Restaurant_ID : string;
  Restaurant_Name : string
}.

Record Rider := {
  Rider_ID : string;
  Rider_Name : string
}.

(** The body of a list answer: an error object, or the object with the one
    key [key] holding the slice ([None] is Go's nil slice, written null). *)
Inductive ListBody (A : Type) : Type :=
| ListError (msg : string)
| ListUnder (key : string) (records : option (list A)).
Arguments ListError {A} msg.
Arguments ListUnder {A} key records.

Record ListResponse (A : Type) := { list_code : Z; list_body : ListBody A }.
Arguments list_code {A} _.
Arguments list_body {A} _.

(** encoding/json at the two list types.  [json_Unmarshal_restaurants]
    decodes into a [[]Restaurant]; [json_Unmarshal_restaurants_file] decodes
    into the struct with the one field [Restaurant] (key restaurant) and
    gives that field; likewise for riders. *)
Class GoLibLists := {
  json_Unmarshal_restaurants : string → result (option (list Restaurant));
  json_Unmarshal_restaurants_file : string → result (option (list Restaurant));
  json_Marshal_restaurants : option (list Restaurant) → result string;
  json_Unmarshal_riders : string → result (option (list Rider));
  json_Unmarshal_riders_file : string → result (option (list Rider));
  json_Marshal_riders : option (list Rider) → result string
}.

(** A slice that encoding/json decoded, from a seed file or from a cached
    text, can be encoded and decodes to itself again. *)
Class GoLibListsOk (C : GoLibLists) : Prop := {
  restaurants_roundtrip : ∀ data records,
    json_Unmarshal_restaurants_file data = Ok records
    ∨ json_Unmarshal_restaurants data = Ok records →
    ∃ data', json_Marshal_restaurants records = Ok data'
             ∧ json_Unmarshal_restaurants data' = Ok records;
  riders_roundtrip : ∀ data records,
    json_Unmarshal_riders_file data = Ok records
    ∨ json_Unmarshal_riders data = Ok records →
    ∃ data', json_Marshal_riders records = Ok data'
             ∧ json_Unmarshal_riders data' = Ok records
}.

Section Lists.
Context {C : GoLibLists}.

(** [fetchRestaurantFromJSON] (lines 215-232); its first line prints
    "view rider called". *)
Definition fetchRestaurantFromJSON (filePath : string)
    : M (result (option (list Restaurant))) :=
  log "view rider called";;
  file ← os_ReadFile filePath;
  match file with
  | Err e => mret (Err ("error reading file: " +:+ e))
  | Ok file =>
      match json_Unmarshal_restaurants_file file with
      | Err e => mret (Err ("error parsing JSON: " +:+ e))
      | Ok records => mret (Ok records)
      end
  end.

(** [restaurantJSON, _ := json.Marshal(restaurant)] *)
Definition marshal_restaurants_dropping_error (records : option (list Restaurant)) : string :=
  match json_Marshal_restaurants records with
  | Ok data => data
  | Err _ => ""
  end.

(** [getRestaurant] (lines 187-213): the handler of GET /restaurant *)
Definition getRestaurant : M (ListResponse Restaurant) :=
  log "view restaurant called";;
  reply ← redis_Get "restaurant";
  match reply with
  | RedisNil =>
      fetched ← fetchRestaurantFromJSON "restaurants.json";
      match fetched with
      | Err _ =>
          mret {| list_code := http_StatusInternalServerError;
                  list_body := ListError "Failed to fetch restaurant" |}
      | Ok restaurant =>
          redis_Set "restaurant" (marshal_restaurants_dropping_error restaurant) time_Hour;;
          log "view restaurant from file";;
          mret {| list_code := http_StatusOK;
                  list_body := ListUnder "restaurant" restaurant |}
      end
  | RedisError _ =>
      mret {| list_code := http_StatusInternalServerError;
              list_body := ListError "Redis error" |}
  | RedisValue restaurantData =>
      match json_Unmarshal_restaurants restaurantData with
      | Err _ =>
          mret {| list_code := http_StatusInternalServerError;
                  list_body := ListError "Failed to parse cached restaurant" |}
      | Ok cachedRestaurant =>
          log "view restaurant from cached";;
          mret {| list_code := http_StatusOK;
                  list_body := ListUnder "restaurant" cachedRestaurant |}
      end
  end.

(** [fetchRidersFromJSON] (lines 262-277) *)
Definition fetchRidersFromJSON (filePath : string) : M (result (option (list Rider))) :=
  file ← os_ReadFile filePath;
  match file with
  | Err e => mret (Err ("error reading file: " +:+ e))
  | Ok file =>
      match json_Unmarshal_riders_file file with
      | Err e => mret (Err ("error parsing JSON: " +:+ e))
      | Ok records => mret (Ok records)
      end
  end.

(** [riderJSON, _ := json.Marshal(riders)] *)
Definition marshal_riders_dropping_error (records : option (list Rider)) : string :=
  match json_Marshal_riders records with
  | Ok data => data
  | Err _ => ""
  end.

(** [getRider] (lines 234-260): the handler of GET /rider *)
Definition getRider : M (ListResponse Rider) :=
  log "view rider called";;
  reply ← redis_Get "rider";
  match reply with
  | RedisNil =>
      fetched ← fetchRidersFromJSON "rider.json";
      match fetched with
      | Err _ =>
          mret {| list_code := http_StatusInternalServerError;
                  list_body := ListError "Failed to fetch rider" |}
      | Ok riders =>
          redis_Set "rider" (marshal_riders_dropping_error riders) time_Hour;;
          log "view rider from file";;
          mret {| list_code := http_StatusOK; list_body := ListUnder "rider" riders |}
      end
  | RedisError _ =>
      mret {| list_code := http_StatusInternalServerError;
              list_body := ListError "Redis error" |}
  | RedisValue riderData =>
      log "view rider from cached";;
      match json_Unmarshal_riders riderData with
      | Err _ =>
          mret {| list_code := http_StatusInternalServerError;
                  list_body := ListError "Failed to parse cached rider" |}
      | Ok cachedRiders =>
          mret {| list_code := http_StatusOK;
                  list_body := ListUnder "rider" cachedRiders |}
      end
  end.

(** The list GET /restaurant is bound to answer with in [w] if its cache read
    does not fail: what the entry decodes to or, with no entry, what the seed
    file decodes to. *)
Definition serves_restaurants (w : World) (records : option (list Restaurant)) : Prop :=
  match redis w !! "restaurant" with
  | Some data => json_Unmarshal_restaurants data = Ok records
  | None =>
      ∃ file, files w !! "restaurants.json" = Some file
              ∧ json_Unmarshal_restaurants_file file = Ok records
  end.

(** The same for GET /rider. *)
Definition serves_riders (w : World) (records : option (list Rider)) : Prop :=
  match redis w !! "rider" with
  | Some data => json_Unmarshal_riders data = Ok records
  | None =>
      ∃ file, files w !! "rider.json" = Some file
              ∧ json_Unmarshal_riders_file file = Ok records
  end.

End Lists.

(** A concrete list codec, in the manner of [Demo]: one seed text and one
    marshalled text per list. *)
Module DemoLists.

Definition restaurants : option (list Restaurant) :=
  Some [ {| Restaurant_ID := "r1"; Restaurant_Name := "Baan Thai" |} ].
Definition riders : option (list Rider) :=
  Some [ {| Rider_ID := "rd1"; Rider_Name := "Somchai" |} ].

Definition restaurants_seed : string := "restaurants.json: [r1 Baan Thai]".
Definition restaurants_text : string := "[r1 Baan Thai]".
Definition riders_seed : string := "rider.json: [rd1 Somchai]".
Definition riders_text : string := "[rd1 Somchai]".

#[export] Instance lists : GoLibLists :=
  {| json_Unmarshal_restaurants data :=
       if String.eqb data restaurants_text then Ok restaurants
       else Err "invalid character";
     json_Unmarshal_restaurants_file data :=
       if String.eqb data restaurants_seed then Ok restaurants
       else Err "invalid character";
     json_Marshal_restaurants _ := Ok restaurants_text;
     json_Unmarshal_riders data :=
       if String.eqb data riders_text then Ok riders
       else Err "invalid character";
     json_Unmarshal_riders_file data :=
       if String.eqb data riders_seed then Ok riders
       else Err "invalid character";
     json_Marshal_riders _ := Ok riders_text |}.

(** The seeded process with the two list files in place as well. *)
Definition fresh : World :=
  {| redis := ∅;
     files := {[ "menu.json" := Demo.seed_text;
                 "restaurants.json" := restaurants_seed;
                 "rider.json" := riders_seed ]};
     kafka := ∅;
     reader_offset := 0;
     committed_offset := 0;
     rng := 20260042;
     faults := [];
     trace := [] |}.

End DemoLists.

(** The notification topic's log. *)
Definition notifications_log (w : World) : list string :=
  default [] (kafka w !! "order-delivered").

(** The messages of the order topic the relay has not read yet. *)
Definition pending (w : World) : list string :=
  drop (reader_offset w) (orders_log w).

(** * Properties *)

(** End-to-end scenario 1 of the specification: the total is 25. *)
Example scenario1 :
  order_total
    (Some [ {| MenuID := "m1"; Quantity := 2 |}; {| MenuID := "m2"; Quantity := 1 |} ])
    {| RestaurantID := "r1";
       Menu := [ {| ID := "m1"; Name := ""; Price := 10%float; Description := "" |};
                 {| ID := "m2"; Name := ""; Price := 5%float; Description := "" |} ] |}
  = 25%float.
Proof. reflexivity. Qed.

(** ** The pricing loops *)

Lemma price_item_cons item menuItem menu total :
  price_item item (menuItem :: menu) total =
  price_item item menu
    (if String.eqb (MenuID item) (ID menuItem)
     then (total + Price menuItem * float64_of_int (Quantity item))%float
     else total).
Proof. reflexivity. Qed.

Lemma price_item_app item menu1 menu2 total :
  price_item item (menu1 ++ menu2) total =
  price_item item menu2 (price_item item menu1 total).
Proof. unfold price_item. apply fold_left_app. Qed.

Lemma price_items_app items1 items2 menu total :
  price_items (items1 ++ items2) menu total =
  price_items items2 menu (price_items items1 menu total).
Proof. unfold price_items. apply fold_left_app. Qed.

(** An item whose identifier no menu entry carries leaves the total alone. *)
Lemma price_item_absent item menu total :
  MenuID item ∉ ID <$> menu →
  price_item item menu total = total.
Proof.
  revert total. induction menu as [|menuItem menu IH]; intros total Habsent.
  - reflexivity.
  - rewrite price_item_cons. rewrite fmap_cons in Habsent.
    apply not_elem_of_cons in Habsent as [Hne Hrest].
    destruct (String.eqb_spec (MenuID item) (ID menuItem)) as [Heq|_].
    + contradiction.
    + apply IH, Hrest.
Qed.

Lemma find_menu_item_None id menu :
  find_menu_item id menu = None ↔ id ∉ ID <$> menu.
Proof.
  unfold find_menu_item. induction menu as [|menuItem menu IH]; simpl.
  - split; [intros _; apply not_elem_of_nil | reflexivity].
  - destruct (String.eqb_spec id (ID menuItem)) as [Heq|Hne].
    + split; [discriminate | intros Habs; apply not_elem_of_cons in Habs as [Hne _]; contradiction].
    + rewrite IH, not_elem_of_cons. tauto.
Qed.

(** On a menu without repeated identifiers the inner loop adds the found
    entry once. *)
Lemma price_item_find item menu total :
  NoDup (ID <$> menu) →
  price_item item menu total =
  match find_menu_item (MenuID item) menu with
  | Some menuItem => (total + Price menuItem * float64_of_int (Quantity item))%float
  | None => total
  end.
Proof.
  revert total. induction menu as [|menuItem menu IH]; intros total Hnodup.
  - reflexivity.
  - rewrite fmap_cons in Hnodup. apply NoDup_cons in Hnodup as [Hfresh Hnodup].
    rewrite price_item_cons. unfold find_menu_item. simpl.
    destruct (String.eqb_spec (MenuID item) (ID menuItem)) as [Heq|Hne].
    + apply price_item_absent. rewrite Heq. exact Hfresh.
    + apply IH, Hnodup.
Qed.

Lemma price_items_find items menu total :
  NoDup (ID <$> menu) →
  price_items items menu total =
  fold_left
    (fun total item =>
       match find_menu_item (MenuID item) menu with
       | Some menuItem => (total + Price menuItem * float64_of_int (Quantity item))%float
       | None => total
       end)
    items total.
Proof.
  intros Hnodup. revert total.
  induction items as [|item items IH]; intros total; simpl.
  - reflexivity.
  - unfold price_items in *. simpl. rewrite IH.
    rewrite price_item_find by exact Hnodup. reflexivity.
Qed.

(** Items that no menu entry matches can be dropped from the request. *)
Lemma price_items_drop_absent items menu total :
  price_items items menu total =
  price_items (filter (fun item => MenuID item ∈ ID <$> menu) items) menu total.
Proof.
  unfold price_items. revert total.
  induction items as [|item items IH]; intros total; [reflexivity|].
  rewrite filter_cons. simpl. destruct (decide _) as [Hin|Hout]; simpl.
  - apply IH.
  - rewrite price_item_absent by exact Hout. apply IH.
Qed.

(** The inner loop is a sum over every matching entry. *)
Lemma price_item_filter item menu total :
  price_item item menu total =
  fold_left
    (fun total menuItem => (total + Price menuItem * float64_of_int (Quantity item))%float)
    (filter (fun menuItem => MenuID item = ID menuItem) menu) total.
Proof.
  revert total. induction menu as [|menuItem menu IH]; intros total.
  - reflexivity.
  - rewrite price_item_cons, filter_cons.
    destruct (String.eqb_spec (MenuID item) (ID menuItem)) as [Heq|Hne].
    + rewrite decide_True by exact Heq. simpl. apply IH.
    + rewrite decide_False by exact Hne. apply IH.
Qed.

Lemma float_neq (x y : float64) : Prim2SF x ≠ Prim2SF y → x ≠ y.
Proof. intros Hne Heq. apply Hne. rewrite Heq. reflexivity. Qed.

(** ** Running a handler *)

(** Unfolds the monad and the calls to the collaborators, leaving the
    handler's own branches. *)
Ltac run :=
  cbv beta iota zeta delta
    [mbind M_bind bind mret M_ret ret gets modify emit log next_fault JSON
     redis_Get redis_Set os_ReadFile WriteMessages ReadMessage CommitMessages Intn];
  simpl.

(** Case analysis on the innermost test the goal is stuck on. *)
Ltac split_branch :=
  match goal with
  | |- context [match ?x with _ => _ end] =>
      lazymatch x with
      | context [match _ with _ => _ end] => fail
      | _ => destruct x eqn:?; run
      end
  end.

(** The libraries of [Demo] keep the contract. *)
Lemma demo_lib_ok : GoLibOk Demo.lib.
Proof.
  split.
  - intros data menu Hdec. simpl in *. unfold Demo.unmarshal in Hdec.
    destruct (_ || _) in Hdec; [|discriminate].
    injection Hdec as <-. exists Demo.marshalled_text. split; reflexivity.
  - intros n s Hn. simpl. apply Z.mod_pos_bound, Hn.
Qed.

Section Properties.
Context {L : GoLib}.

(** ** Validation comes before every side effect *)

(** C2. A Create request whose restaurant_id is empty or whose items are
    absent is answered 400 with the validation message, and the world is
    left exactly as it was: no cache read, no file read, no cache write, no
    event published, no order identifier drawn, nothing logged.  A request
    that cannot be bound at all is answered 400 in the same way. *)
Theorem placeOrder_rejects_missing_fields (order : Order) (w : World) :
  (Order_RestaurantID order = "" ∨ Items order = None →
   placeOrder (Ok order) w =
     ({| code := 400;
         body := JSONObject [("error", "restaurant_id and items are required")] |}, w))
  ∧ (∀ e, placeOrder (Err e) w =
       ({| code := 400; body := JSONObject [("error", "Invalid order details")] |}, w)).
Proof.
  split; [|reflexivity].
  intros Hmissing. unfold placeOrder.
  destruct (String.eqb_spec (Order_RestaurantID order) "") as [_|Hrid].
  - reflexivity.
  - destruct Hmissing as [Hempty|Hnil]; [contradiction|].
    rewrite bool_decide_eq_true_2 by exact Hnil. reflexivity.
Qed.

(** C8. A bound /notification/send request whose recipient is none of
    customer, restaurant, rider is answered 400 and leaves the world exactly
    as it was; with one of the three recipients the answer is 200 with the
    body {status: sent}.  A request that cannot be bound is answered 400
    before its recipient is looked at. *)
Theorem sendNotification_recipient (req : SendNotificationRequest) (w : World) :
  (Recipient req ∉ ["customer"; "restaurant"; "rider"] →
     sendNotification (Ok req) w =
       ({| code := 400; body := JSONObject [("error", "Invalid recipient")] |}, w))
  ∧ (Recipient req ∈ ["customer"; "restaurant"; "rider"] →
     (sendNotification (Ok req) w).1 =
       {| code := 200; body := JSONObject [("status", "sent")] |})
  ∧ (∀ e, sendNotification (Err e) w =
       ({| code := 400; body := JSONObject [("error", "Invalid request")] |}, w)).
Proof.
  rewrite (and_assoc _ _ _). split; [|reflexivity].
  unfold sendNotification. rewrite !elem_of_cons, elem_of_nil.
  destruct (String.eqb_spec (Recipient req) "customer") as [Hc|Hc];
  destruct (String.eqb_spec (Recipient req) "restaurant") as [Hr|Hr];
  destruct (String.eqb_spec (Recipient req) "rider") as [Hd|Hd];
  simpl; split; intros Hrec; first [reflexivity | tauto].
Qed.

(** C6. A bound ConfirmDelivery request with both fields non-empty whose
    publish succeeds is answered 200 {status: Delivered}; the order topic
    gains exactly the one message "Order <order_id> Delivered", no other
    topic changes, and that write is the only call to a collaborator.  With
    either field empty the answer is 400 and the world is left as it was. *)
Theorem confirmDelivery_publishes_once (req : DeliverRequest) (w : World) :
  (Deliver_OrderID req ≠ "" → Deliver_RiderID req ≠ "" →
   hd None (faults w) = None →
     (confirmDelivery (Ok req) w).1 =
       {| code := 200; body := JSONObject [("status", "Delivered")] |}
     ∧ kafka (confirmDelivery (Ok req) w).2 =
         <["orders" := default [] (kafka w !! "orders")
                         ++ ["Order " +:+ Deliver_OrderID req +:+ " Delivered"]]> (kafka w)
     ∧ trace (confirmDelivery (Ok req) w).2 =
         trace w ++ [ ELog "Rider %s delivering order %s";
                      ELog "Publishing to Kafka: %s";
                      EKafkaWrite "orders" ("Order " +:+ Deliver_OrderID req +:+ " Delivered");
                      ELog "Event published to Kafka: %s" ])
  ∧ (Deliver_OrderID req = "" ∨ Deliver_RiderID req = "" →
     confirmDelivery (Ok req) w =
       ({| code := 400;
           body := JSONObject [("error", "Missing order_id or rider_id")] |}, w)).
Proof.
  unfold confirmDelivery. split.
  - intros Horder Hrider Hup.
    destruct (String.eqb_spec (Deliver_OrderID req) ""); [contradiction|].
    destruct (String.eqb_spec (Deliver_RiderID req) ""); [contradiction|].
    simpl. unfold publishOrderDeliveredEvent. run. rewrite Hup. run.
    rewrite <- !app_assoc. auto.
  - intros [Hempty|Hempty]; rewrite Hempty; simpl.
    + reflexivity.
    + rewrite orb_true_r. reflexivity.
Qed.

(** ** A failing cache read is not a miss *)

(** C4. When the Redis read fails with an error other than [redis.Nil],
    [getMenuFromCache] returns the wrapped Redis error, and the only call it
    has made is that read: the seed file is not opened and nothing is written
    to the cache.  The handler of GET /menu answers 500 {error: Redis error}
    in the same way, and Create answers 500. *)
Theorem redis_failure_is_not_a_miss (restaurantID e : string) (w : World) :
  hd None (faults w) = Some e →
  ( (getMenuFromCache restaurantID w).1 = Err ("redis error: " +:+ e)
    ∧ trace (getMenuFromCache restaurantID w).2 = trace w ++ [ERedisGet restaurantID]
    ∧ redis (getMenuFromCache restaurantID w).2 = redis w )
  ∧ ( restaurantID ≠ "" →
      (getMenu restaurantID w).1 =
        {| code := 500; body := JSONObject [("error", "Redis error")] |}
      ∧ trace (getMenu restaurantID w).2 =
          trace w ++ [ ELog "view menu called"; ERedisGet restaurantID;
                       ELog "Error fetching from Redis: %v\n" ]
      ∧ redis (getMenu restaurantID w).2 = redis w )
  ∧ ( ∀ order, Order_RestaurantID order = restaurantID → restaurantID ≠ "" →
      Items order ≠ None →
      (placeOrder (Ok order) w).1 =
        {| code := 500; body := JSONObject [("error", "Failed to fetch restaurant menu")] |}
      ∧ trace (placeOrder (Ok order) w).2 = trace w ++ [ERedisGet restaurantID]
      ∧ redis (placeOrder (Ok order) w).2 = redis w
      ∧ kafka (placeOrder (Ok order) w).2 = kafka w ).
Proof.
  intros Hdown. split; [|split].
  - unfold getMenuFromCache. run. rewrite Hdown. run. auto.
  - intros Hid. unfold getMenu.
    destruct (String.eqb_spec restaurantID ""); [contradiction|].
    run. rewrite Hdown. run. rewrite <- !app_assoc. auto.
  - intros order Hrid Hid Hitems. unfold placeOrder. rewrite Hrid.
    destruct (String.eqb_spec restaurantID ""); [contradiction|].
    rewrite bool_decide_eq_false_2 by exact Hitems. simpl.
    unfold getMenuFromCache. run. rewrite Hdown. run. auto.
Qed.

(** ** Create *)

(** Looking a menu up touches the cache and the seed file only. *)
Lemma getMenuFromCache_frame (restaurantID : string) (w : World) :
  rng (getMenuFromCache restaurantID w).2 = rng w
  ∧ kafka (getMenuFromCache restaurantID w).2 = kafka w
  ∧ files (getMenuFromCache restaurantID w).2 = files w.
Proof.
  unfold getMenuFromCache, fetchMenuFromFile. run.
  repeat split_branch; auto.
Qed.

(** The path of [placeOrder] on which nothing fails: the request is valid,
    the menu is resolved and the write to the order topic succeeds. *)
Lemma placeOrder_created (order : Order) (menu : RestaurantMenu) (w : World) :
  let rid := Order_RestaurantID order in
  let n := (rand_Intn 10000 (rng w)).1 in
  rid ≠ "" → Items order ≠ None →
  (getMenuFromCache rid w).1 = Ok menu →
  hd None (faults (getMenuFromCache rid w).2) = None →
  (placeOrder (Ok order) w).1 =
    {| code := 200;
       body := JSONObject [("order_id", Sprintf_d n); ("status", "created")] |}
  ∧ kafka (placeOrder (Ok order) w).2 =
      <["orders" := default [] (kafka w !! "orders")
          ++ ["Order Created: " +:+ Sprintf_d n +:+ " | Restaurant: " +:+ rid
                +:+ " | Total: " +:+ fmt_float 2 (order_total (Items order) menu)]]> (kafka w).
Proof.
  intros rid n Hrid Hitems Hmenu Hup. subst rid n.
  pose proof (getMenuFromCache_frame (Order_RestaurantID order) w) as (Hrng & Hkafka & _).
  destruct (getMenuFromCache (Order_RestaurantID order) w) as [fetched w1] eqn:Hget.
  simpl in Hmenu, Hup, Hrng, Hkafka. subst fetched.
  unfold placeOrder, publishOrderEvent.
  destruct (String.eqb_spec (Order_RestaurantID order) ""); [contradiction|].
  rewrite bool_decide_eq_false_2 by exact Hitems.
  run. rewrite Hget. run. rewrite Hup. run. rewrite Hrng, Hkafka. auto.
Qed.

(** C5. Every Create call answered 200 returns exactly the two fields
    order_id and status: status is "created" and order_id is the decimal
    text of the number [rand.Intn(10000)] drew from the process-wide
    generator of x/exp/rand, a number in [0, 10000). *)
Theorem placeOrder_success_response {HL : GoLibOk L} (bound : result Order) (w : World) :
  code (placeOrder bound w).1 = 200 →
  ∃ n : Z,
    n = (rand_Intn 10000 (rng w)).1
    ∧ 0 ≤ n < 10000
    ∧ (placeOrder bound w).1 =
        {| code := 200;
           body := JSONObject [("order_id", Sprintf_d n); ("status", "created")] |}.
Proof.
  intros Hcode. exists (rand_Intn 10000 (rng w)).1.
  split; [reflexivity|]. split; [apply rand_Intn_range; lia|].
  destruct bound as [order|e]; [|discriminate Hcode].
  revert Hcode. unfold placeOrder, publishOrderEvent.
  destruct (_ || _); [discriminate|].
  pose proof (getMenuFromCache_frame (Order_RestaurantID order) w) as (Hrng & _).
  destruct (getMenuFromCache (Order_RestaurantID order) w) as [fetched w1] eqn:Hget.
  simpl in Hrng. run. rewrite Hget.
  destruct fetched as [menu|e]; run; [|discriminate].
  destruct (hd None (faults w1)); run; [discriminate|].
  rewrite Hrng. reflexivity.
Qed.

(** ** OrderPricer *)

(** C1, as the code has it.  On a menu whose identifiers are pairwise
    distinct, the total Create computes is the sum, over the requested items
    in order, of the price of the menu entry with the item's identifier times
    the requested quantity.  On every menu, the items whose identifier is
    absent from the menu add nothing: the total is that of the request with
    those items removed.  Such items do not make Create reject: whenever the
    menu is resolved and the publish succeeds the answer is 200, and the
    published event carries that total. *)
Theorem order_total_on_distinct_ids (order : Order) (items : list OrderItem)
    (menu : RestaurantMenu) (w : World) :
  Order_RestaurantID order ≠ "" →
  Items order = Some items →
  (getMenuFromCache (Order_RestaurantID order) w).1 = Ok menu →
  hd None (faults (getMenuFromCache (Order_RestaurantID order) w).2) = None →
  (NoDup (ID <$> Menu menu) → order_total (Items order) menu = spec_total items menu)
  ∧ order_total (Items order) menu =
      order_total (Some (filter (fun item => MenuID item ∈ ID <$> Menu menu) items)) menu
  ∧ code (placeOrder (Ok order) w).1 = 200
  ∧ ∃ order_id,
      kafka (placeOrder (Ok order) w).2 !! "orders" =
        Some (default [] (kafka w !! "orders")
              ++ ["Order Created: " +:+ order_id +:+ " | Restaurant: "
                    +:+ Order_RestaurantID order +:+ " | Total: "
                    +:+ fmt_float 2 (order_total (Items order) menu)]).
Proof.
  intros Hrid Hitems Hmenu Hup. split; [|split].
  - intros Hnodup. rewrite Hitems. unfold order_total, spec_total. simpl.
    apply price_items_find, Hnodup.
  - rewrite Hitems. apply price_items_drop_absent.
  - destruct (placeOrder_created order menu w) as [Hresp Hkafka]; auto.
    { rewrite Hitems. discriminate. }
    rewrite Hresp, Hkafka. split; [reflexivity|].
    eexists. apply lookup_insert_eq.
Qed.

(** C9. The inner pricing loop does not stop at the first match: one order
    item adds price times quantity for every menu entry carrying its
    identifier, in menu order, and so does the whole total.  With two
    entries "m1" priced 10, one unit of "m1" costs 20, where the first match
    alone gives 10. *)
Theorem price_item_sums_every_match :
  (∀ item menu total,
     price_item item menu total =
     fold_left
       (fun total menuItem =>
          (total + Price menuItem * float64_of_int (Quantity item))%float)
       (filter (fun menuItem => MenuID item = ID menuItem) menu) total)
  ∧ (∀ items menu,
     order_total (Some items) menu =
     fold_left
       (fun total item =>
          fold_left
            (fun total menuItem =>
               (total + Price menuItem * float64_of_int (Quantity item))%float)
            (filter (fun menuItem => MenuID item = ID menuItem) (Menu menu)) total)
       items 0%float)
  ∧ (let entry := {| ID := "m1"; Name := ""; Price := 10%float; Description := "" |} in
     let menu := {| RestaurantID := "r1"; Menu := [entry; entry] |} in
     let items := [ {| MenuID := "m1"; Quantity := 1 |} ] in
     order_total (Some items) menu = 20%float
     ∧ spec_total items menu = 10%float).
Proof.
  split; [|split].
  - apply price_item_filter.
  - intros items menu. unfold order_total, price_items. simpl.
    generalize 0%float as total.
    induction items as [|item items IH]; intros total; [reflexivity|].
    simpl. rewrite IH, price_item_filter. reflexivity.
  - split; reflexivity.
Qed.

(** C10. Create does not look at quantities.  Whatever they are, a valid
    request whose menu is resolved and whose publish succeeds is answered 200
    and the event carries the total of the pricing loops; against a matching
    entry an item adds price times quantity whatever the sign of the
    quantity.  Two units less than nothing of a dish priced 10 give the total
    -20, and no unit gives 0. *)
Theorem placeOrder_accepts_any_quantity (order : Order) (menu : RestaurantMenu) (w : World) :
  (Order_RestaurantID order ≠ "" → Items order ≠ None →
   (getMenuFromCache (Order_RestaurantID order) w).1 = Ok menu →
   hd None (faults (getMenuFromCache (Order_RestaurantID order) w).2) = None →
     code (placeOrder (Ok order) w).1 = 200
     ∧ ∃ order_id,
         kafka (placeOrder (Ok order) w).2 !! "orders" =
           Some (default [] (kafka w !! "orders")
                 ++ ["Order Created: " +:+ order_id +:+ " | Restaurant: "
                       +:+ Order_RestaurantID order +:+ " | Total: "
                       +:+ fmt_float 2 (order_total (Items order) menu)]))
  ∧ (∀ item menuItem total,
       MenuID item = ID menuItem →
       price_item item [menuItem] total =
         (total + Price menuItem * float64_of_int (Quantity item))%float)
  ∧ (let total := order_total (Some [ {| MenuID := "m1"; Quantity := -2 |} ]) Demo.menu_r1 in
     total = (-20)%float ∧ (total <? 0)%float = true)
  ∧ (let total := order_total (Some [ {| MenuID := "m1"; Quantity := 0 |} ]) Demo.menu_r1 in
     total = 0%float ∧ (total <=? 0)%float = true).
Proof.
  split; [|split; [|split]].
  - intros Hrid Hitems Hmenu Hup.
    destruct (placeOrder_created order menu w) as [Hresp Hkafka]; auto.
    rewrite Hresp, Hkafka. split; [reflexivity|].
    eexists. apply lookup_insert_eq.
  - intros item menuItem total Hid. rewrite price_item_cons.
    rewrite Hid, String.eqb_refl. reflexivity.
  - split; reflexivity.
  - split; reflexivity.
Qed.

(** ** CatalogCache *)

(** A Get that returns a record leaves a world that serves this record. *)
Lemma getMenuFromCache_serves {HL : GoLibOk L} (restaurantID : string) (w : World)
    (menu : RestaurantMenu) :
  (getMenuFromCache restaurantID w).1 = Ok menu →
  serves restaurantID (getMenuFromCache restaurantID w).2 menu.
Proof.
  unfold getMenuFromCache, fetchMenuFromFile, serves. run.
  destruct (hd None (faults w)) as [e|]; run; [discriminate|].
  destruct (redis w !! restaurantID) as [data|] eqn:Hentry; run.
  - destruct (json_Unmarshal data) as [cached|e] eqn:Hdec; run; [|discriminate].
    intros [= <-]. rewrite Hentry. exact Hdec.
  - destruct (files w !! "menu.json") as [file|] eqn:Hfile; run; [|discriminate].
    destruct (json_Unmarshal file) as [menuData|e] eqn:Hdec; run; [|discriminate].
    destruct (String.eqb_spec (RestaurantID menuData) restaurantID) as [Hid|Hid];
      run; [|discriminate].
    destruct (hd None (tail (faults w))) as [e|]; run; intros [= <-].
    + rewrite Hentry. eauto.
    + rewrite lookup_insert_eq. unfold marshal_dropping_error.
      destruct (json_roundtrip file menuData Hdec) as (data' & -> & Hback).
      exact Hback.
Qed.

(** In a world that serves [menu], a Get returns [menu] or the Redis error. *)
Lemma serves_getMenuFromCache (restaurantID : string) (w : World) (menu : RestaurantMenu) :
  serves restaurantID w menu →
  (∀ menu', (getMenuFromCache restaurantID w).1 = Ok menu' → menu' = menu)
  ∧ (hd None (faults w) = None → (getMenuFromCache restaurantID w).1 = Ok menu).
Proof.
  unfold getMenuFromCache, fetchMenuFromFile, serves. run.
  destruct (hd None (faults w)) as [e|]; run.
  - intros _. split; intros; discriminate.
  - destruct (redis w !! restaurantID) as [data|] eqn:Hentry; run.
    + intros Hdec. rewrite Hdec. run. split; [congruence|reflexivity].
    + intros (file & Hfile & Hdec & Hid).
      rewrite Hfile. run. rewrite Hdec. run.
      rewrite Hid, String.eqb_refl. run.
      destruct (hd None (tail (faults w))); run; split; congruence.
Qed.

(** Serving depends on the entry under the key and on the seed files only. *)
Lemma serves_same_sources (restaurantID : string) (w w' : World) (menu : RestaurantMenu) :
  files w' = files w →
  redis w' !! restaurantID = redis w !! restaurantID →
  serves restaurantID w menu → serves restaurantID w' menu.
Proof. unfold serves. intros -> ->. auto. Qed.

(** A Get leaves a world that serves what the world before it served. *)
Lemma getMenuFromCache_keeps_serving {HL : GoLibOk L} (restaurantID : string) (w : World)
    (menu : RestaurantMenu) :
  serves restaurantID w menu →
  serves restaurantID (getMenuFromCache restaurantID w).2 menu.
Proof.
  intros Hserves.
  destruct (getMenuFromCache restaurantID w).1 as [menu'|e] eqn:Hres.
  - apply (proj1 (serves_getMenuFromCache _ _ _ Hserves)) in Hres as Hsame.
    subst menu'. apply getMenuFromCache_serves, Hres.
  - revert Hserves Hres. unfold getMenuFromCache, fetchMenuFromFile, serves. run.
    destruct (hd None (faults w)); run; [auto|].
    destruct (redis w !! restaurantID) as [data|] eqn:Hentry; run.
    + intros ->. discriminate.
    + intros (file & -> & -> & ->). run. rewrite String.eqb_refl. run.
      destruct (hd None (tail (faults w))); discriminate.
Qed.

Lemma repeated_Get_cons (restaurantID : string) (n : nat) (w : World) :
  (repeated_Get restaurantID (S n) w).1 =
  (getMenuFromCache restaurantID w).1
    :: (repeated_Get restaurantID n (getMenuFromCache restaurantID w).2).1.
Proof.
  simpl. unfold mbind, M_bind, bind, mret, M_ret, ret.
  destruct (getMenuFromCache restaurantID w) as [r w1]. simpl.
  destruct (repeated_Get restaurantID n w1) as [rs w2]. reflexivity.
Qed.

(** In a world that serves [menu], every record a run of Gets returns is
    [menu]. *)
Lemma repeated_Get_serves {HL : GoLibOk L} (restaurantID : string) (n : nat) (w : World)
    (menu menu' : RestaurantMenu) :
  serves restaurantID w menu →
  Ok menu' ∈ (repeated_Get restaurantID n w).1 →
  menu' = menu.
Proof.
  revert w. induction n as [|n IH]; intros w Hserves Hin.
  - inversion Hin.
  - rewrite repeated_Get_cons in Hin. apply elem_of_cons in Hin as [Hhead|Hrest].
    + symmetry in Hhead. apply (proj1 (serves_getMenuFromCache _ _ _ Hserves)), Hhead.
    + apply (IH (getMenuFromCache restaurantID w).2); [|exact Hrest].
      apply getMenuFromCache_keeps_serving, Hserves.
Qed.

(** Any two records a run of Gets returns are equal. *)
Lemma repeated_Get_equal {HL : GoLibOk L} (restaurantID : string) (n : nat) (w : World)
    (menu1 menu2 : RestaurantMenu) :
  Ok menu1 ∈ (repeated_Get restaurantID n w).1 →
  Ok menu2 ∈ (repeated_Get restaurantID n w).1 →
  menu1 = menu2.
Proof.
  revert w. induction n as [|n IH]; intros w Hin1 Hin2.
  - inversion Hin1.
  - rewrite repeated_Get_cons in Hin1, Hin2.
    apply elem_of_cons in Hin1 as [Hhead1|Hrest1];
      apply elem_of_cons in Hin2 as [Hhead2|Hrest2].
    + congruence.
    + symmetry in Hhead1. apply getMenuFromCache_serves in Hhead1.
      symmetry. eapply repeated_Get_serves; eassumption.
    + symmetry in Hhead2. apply getMenuFromCache_serves in Hhead2.
      eapply repeated_Get_serves; eassumption.
    + eapply IH; eassumption.
Qed.

(** C3. Any two records that a run of Gets of one key returns are equal,
    whichever of them were served from the cache and whichever read the seed
    file, and whichever cache reads or writes failed in between.  More
    generally, after a Get has returned a record, as long as the seed files
    and the entry under the key stay as that Get left them, every later Get of the
    key that returns a record returns an equal one, whether it is served from
    the cache or reads the seed file again, and it does return it whenever
    its cache read does not fail.  In particular, when the first Get missed
    and its write to the cache went through, the entry it wrote decodes to
    the record it returned. *)
Theorem getMenuFromCache_idempotent {HL : GoLibOk L} (restaurantID : string)
    (w w' : World) (menu : RestaurantMenu) :
  (∀ n menu1 menu2,
     Ok menu1 ∈ (repeated_Get restaurantID n w).1 →
     Ok menu2 ∈ (repeated_Get restaurantID n w).1 →
     menu1 = menu2)
  ∧ ((getMenuFromCache restaurantID w).1 = Ok menu →
     files w' = files (getMenuFromCache restaurantID w).2 →
     redis w' !! restaurantID = redis (getMenuFromCache restaurantID w).2 !! restaurantID →
     (∀ menu', (getMenuFromCache restaurantID w').1 = Ok menu' → menu' = menu)
     ∧ (hd None (faults w') = None → (getMenuFromCache restaurantID w').1 = Ok menu)
     ∧ (redis w !! restaurantID = None → hd None (tail (faults w)) = None →
        redis (getMenuFromCache restaurantID w).2 !! restaurantID
          = Some (marshal_dropping_error menu)
        ∧ json_Unmarshal (marshal_dropping_error menu) = Ok menu)).
Proof.
  split; [intros n menu1 menu2; apply repeated_Get_equal|].
  intros Hfirst Hfiles Hentry.
  pose proof (getMenuFromCache_serves restaurantID w menu Hfirst) as Hserves.
  apply (serves_same_sources restaurantID _ w') in Hserves; [|assumption..].
  destruct (serves_getMenuFromCache restaurantID w' menu Hserves) as [Hsame Hreturns].
  split; [exact Hsame|]. split; [exact Hreturns|].
  intros Hmiss Hset. clear Hfiles Hentry Hserves Hsame Hreturns. revert Hfirst.
  unfold getMenuFromCache, fetchMenuFromFile. run.
  destruct (hd None (faults w)) as [e|]; run; [discriminate|].
  rewrite Hmiss. run.
  destruct (files w !! "menu.json") as [file|]; run; [|discriminate].
  destruct (json_Unmarshal file) as [menuData|e] eqn:Hdec; run; [|discriminate].
  destruct (String.eqb (RestaurantID menuData) restaurantID); run; [|discriminate].
  rewrite Hset. run. intros [= <-]. rewrite lookup_insert_eq. split; [reflexivity|].
  unfold marshal_dropping_error.
  destruct (json_roundtrip file menuData Hdec) as (data' & -> & Hback). exact Hback.
Qed.

(** ** NotificationRelay *)

(** One turn of the loop, by what [ReadMessage] gave. *)
Lemma relay_iteration_spec (w : World) :
  match (relay_iteration w).1 with
  | Looping =>
      ∃ value,
        orders_log w !! reader_offset w = Some value
        ∧ trace (relay_iteration w).2 =
            trace w ++ iteration_events (reader_offset w) value
        ∧ reader_offset (relay_iteration w).2 = S (reader_offset w)
        ∧ orders_log (relay_iteration w).2 = orders_log w
  | Waiting =>
      trace (relay_iteration w).2 = trace w ++ [EKafkaRead "orders"]
  | Exited =>
      trace (relay_iteration w).2 =
        trace w ++ [EKafkaRead "orders"; EFatal "error reading message: %v"]
  end.
Proof.
  unfold relay_iteration, processOrderDeliveredEvent, orders_log. run.
  destruct (hd None (faults w)) as [e|]; run.
  - rewrite <- app_assoc. reflexivity.
  - destruct (default [] (kafka w !! "orders") !! reader_offset w) as [value|] eqn:Hmsg;
      run; [|reflexivity].
    destruct (hd None (tail (faults w))); run;
      destruct (hd None (tail (tail (faults w)))); run;
      exists value; rewrite <- ?app_assoc; repeat split; try reflexivity;
      rewrite lookup_insert_ne by discriminate; reflexivity.
Qed.

(** The trace of the relay: turns that found a message, then at most one
    turn that did not. *)
Lemma consumeOrderDeliveredEvent_trace (turns : nat) (w : World) :
  ∃ k tail,
    trace (consumeOrderDeliveredEvent turns w).2 =
      trace w ++ relay_events (orders_log w) (reader_offset w) k ++ tail
    ∧ quiet tail
    ∧ ∀ i, (i < k)%nat → is_Some (orders_log w !! (reader_offset w + i)%nat).
Proof.
  revert w. induction turns as [|turns IH]; intros w.
  - exists O, []. simpl. rewrite app_nil_r.
    split; [reflexivity|]. split; [intros e He; inversion He | intros i Hi; lia].
  - simpl. unfold mbind, M_bind, bind.
    pose proof (relay_iteration_spec w) as Hturn.
    destruct (relay_iteration w) as [st w1]. simpl in Hturn.
    destruct st.
    + destruct Hturn as (value & Hmsg & Htrace & Hoffset & Hlog).
      destruct (IH w1) as (k & tail & Hrest & Hquiet & Hsome).
      exists (S k), tail. rewrite Hrest, Htrace, Hoffset, Hlog. simpl.
      rewrite Hmsg. simpl. split; [|split; [exact Hquiet|]].
      * rewrite <- !app_assoc. reflexivity.
      * intros [|i] Hi.
        -- rewrite Nat.add_0_r, Hmsg. eauto.
        -- rewrite Hoffset, Hlog in Hsome.
           replace (reader_offset w + S i)%nat with (S (reader_offset w) + i)%nat by lia.
           apply Hsome. lia.
    + exists O, [EKafkaRead "orders"]. simpl. split; [exact Hturn|].
      split; [|intros i Hi; lia].
      intros e He. rewrite elem_of_cons, elem_of_nil in He.
      destruct He as [->|[]]; split; discriminate.
    + exists O, [EKafkaRead "orders"; EFatal "error reading message: %v"]. simpl.
      split; [exact Hturn|]. split; [|intros i Hi; lia].
      intros e He. rewrite !elem_of_cons, elem_of_nil in He.
      destruct He as [->|[->|[]]]; split; discriminate.
Qed.

(** Commits of later turns carry later offsets. *)
Lemma relay_events_commit_offset (log : list string) (offset k : nat) topic o :
  EKafkaCommit topic o ∈ relay_events log offset k → (offset ≤ o)%nat.
Proof.
  revert offset. induction k as [|k IH]; intros offset; simpl.
  - intros Hin. inversion Hin.
  - rewrite !elem_of_cons. intros [Hin|[Hin|[Hin|[Hin|Hin]]]]; try discriminate.
    + injection Hin as _ ->. lia.
    + apply IH in Hin. lia.
Qed.

(** Where a write can stand in the relay's trace. *)
Lemma relay_events_write (log : list string) (k offset : nat) (tail pre post : list Event)
    topic payload :
  quiet tail →
  relay_events log offset k ++ tail = pre ++ EKafkaWrite topic payload :: post →
  ∃ pre' o,
    pre = pre' ++ [EKafkaRead "orders"; EKafkaCommit "orders" o]
    ∧ (offset ≤ o < offset + k)%nat
    ∧ topic = "order-delivered"
    ∧ payload = "Notification: " +:+ default "" (log !! o)
    ∧ EKafkaCommit "orders" o ∉ post.
Proof.
  intros Hquiet. revert offset pre.
  induction k as [|k IH]; intros offset pre Hsplit; simpl in Hsplit.
  - exfalso.
    assert (Hin : EKafkaWrite topic payload ∈ tail).
    { rewrite Hsplit. apply elem_of_app. right. left. }
    apply Hquiet in Hin as [Hwrite _]. exact (Hwrite _ _ eq_refl).
  - destruct pre as [|e1 [|e2 [|e3 [|e4 pre]]]]; simpl in Hsplit;
      try discriminate Hsplit.
    + injection Hsplit as He1 He2 Htopic Hpayload Hpost. subst.
      exists [], offset. repeat split; try reflexivity; try lia.
      rewrite not_elem_of_cons, not_elem_of_app.
      split; [discriminate|]. split.
      * intros Hin. apply relay_events_commit_offset in Hin. lia.
      * intros Hin. apply Hquiet in Hin as [_ Hcommit]. exact (Hcommit _ _ eq_refl).
    + injection Hsplit as He1 He2 He3 He4 Hrest. subst e1 e2 e3 e4.
      destruct (IH (S offset) pre Hrest) as (pre' & o & -> & Ho & Htopic & Hpayload & Hpost).
      exists (iteration_events offset (default "" (log !! offset)) ++ pre'), o.
      split; [rewrite <- app_assoc; reflexivity|].
      repeat split; try assumption; lia.
Qed.

(** C7. A turn of the relay's loop that gets a message reads the next message
    of the order topic, commits its offset, and then writes "Notification: "
    followed by the message's payload to the topic order-delivered, which is
    not the topic it reads; these are its calls, in this order.  In the trace
    of any number of turns, every write is such a notification, the call just
    before it is the commit of the offset of the message it is derived from,
    and that offset is not committed again after the write. *)
Theorem relay_commits_before_publishing (turns : nat) (w : World) :
  ((relay_iteration w).1 = Looping →
     ∃ value,
       orders_log w !! reader_offset w = Some value
       ∧ trace (relay_iteration w).2 =
           trace w ++ [ EKafkaRead "orders";
                        EKafkaCommit "orders" (reader_offset w);
                        EKafkaWrite "order-delivered" ("Notification: " +:+ value);
                        ELog "Notification: %s" ])
  ∧ Reader_Topic orderReader = Writer_Topic kafkaWriter
  ∧ Writer_Topic kafkaNotiWriter ≠ Reader_Topic orderReader
  ∧ (∀ pre post topic payload,
       trace (consumeOrderDeliveredEvent turns w).2 =
         trace w ++ pre ++ EKafkaWrite topic payload :: post →
       ∃ pre' offset value,
         pre = pre' ++ [EKafkaRead "orders"; EKafkaCommit "orders" offset]
         ∧ orders_log w !! offset = Some value
         ∧ topic = "order-delivered"
         ∧ payload = "Notification: " +:+ value
         ∧ EKafkaCommit "orders" offset ∉ post).
Proof.
  split; [|split; [reflexivity|split; [discriminate|]]].
  - intros Hloop. pose proof (relay_iteration_spec w) as Hturn.
    rewrite Hloop in Hturn. destruct Hturn as (value & Hmsg & Htrace & _).
    exists value. split; [exact Hmsg | exact Htrace].
  - intros pre post topic payload Hsplit.
    destruct (consumeOrderDeliveredEvent_trace turns w) as (k & tail & Htrace & Hquiet & Hsome).
    rewrite Htrace in Hsplit. apply app_inv_head in Hsplit.
    destruct (relay_events_write _ _ _ _ _ _ _ _ Hquiet Hsplit)
      as (pre' & o & Hpre & Ho & Htopic & Hpayload & Hpost).
    destruct (Hsome (o - reader_offset w)%nat) as [value Hvalue]; [lia|].
    replace (reader_offset w + (o - reader_offset w))%nat with o in Hvalue by lia.
    exists pre', o, value. rewrite Hvalue in Hpayload. auto.
Qed.

End Properties.

(** * The properties at work on the seeded process *)

(** The seed menu lists no identifier twice. *)
Lemma order_r1_distinct_ids : NoDup (ID <$> Menu Demo.menu_r1).
Proof. apply (bool_decide_unpack _). vm_compute. exact I. Qed.

(** C1 as the specification words it fails on a menu that lists "m1" twice at
    the price 10: one unit of "m1" is priced 20 by the loops, and 10 by the
    price of the entry found. *)
Lemma order_total_counts_duplicates :
  let entry := {| ID := "m1"; Name := "Pad Thai"; Price := 10%float; Description := "" |} in
  let menu := {| RestaurantID := "r1"; Menu := [entry; entry] |} in
  let items := [ {| MenuID := "m1"; Quantity := 1 |} ] in
  order_total (Some items) menu = 20%float
  ∧ spec_total items menu = 10%float
  ∧ order_total (Some items) menu ≠ spec_total items menu.
Proof.
  split; [reflexivity|]. split; [reflexivity|].
  apply float_neq. vm_compute. discriminate.
Qed.

(** Scenario 2 of the specification: the unmatched item "m9" leaves the total
    at 25 and the order is accepted. *)
Lemma order_total_on_distinct_ids_witness :
  let items := Demo.two_items ++ [ {| MenuID := "m9"; Quantity := 3 |} ] in
  let order := Demo.order_r1 (Some items) in
  order_total (Items order) Demo.menu_r1 = spec_total items Demo.menu_r1
  ∧ order_total (Items order) Demo.menu_r1 = 25%float
  ∧ code (placeOrder (L := Demo.lib) (Ok order) Demo.fresh).1 = 200.
Proof.
  intros items order.
  destruct (order_total_on_distinct_ids (L := Demo.lib) order items Demo.menu_r1 Demo.fresh)
    as (Hspec & _ & Hcode & _).
  - discriminate.
  - reflexivity.
  - vm_compute. reflexivity.
  - vm_compute. reflexivity.
  - split; [exact (Hspec order_r1_distinct_ids)|].
    split; [reflexivity | exact Hcode].
Defined.

Lemma placeOrder_rejects_missing_fields_witness :
  Items (Demo.order_r1 None) = None
  ∧ placeOrder (L := Demo.lib) (Ok (Demo.order_r1 None)) Demo.fresh =
      ({| code := 400;
          body := JSONObject [("error", "restaurant_id and items are required")] |},
       Demo.fresh).
Proof.
  split; [reflexivity|].
  apply (placeOrder_rejects_missing_fields (L := Demo.lib) (Demo.order_r1 None) Demo.fresh).
  right. reflexivity.
Defined.

Lemma getMenuFromCache_idempotent_witness :
  let first := getMenuFromCache (L := Demo.lib) "r1" Demo.fresh in
  first.1 = Ok Demo.menu_r1
  ∧ redis first.2 !! "r1" = Some Demo.marshalled_text
  ∧ (getMenuFromCache (L := Demo.lib) "r1" first.2).1 = Ok Demo.menu_r1.
Proof.
  intros first.
  destruct (getMenuFromCache_idempotent (L := Demo.lib) (HL := demo_lib_ok)
              "r1" Demo.fresh first.2 Demo.menu_r1) as [_ Hsecond].
  destruct Hsecond as (_ & Hreturns & Hpopulated).
  - vm_compute. reflexivity.
  - reflexivity.
  - reflexivity.
  - split; [vm_compute; reflexivity|].
    split; [|apply Hreturns; vm_compute; reflexivity].
    destruct Hpopulated as [Hentry _]; [vm_compute; reflexivity..|].
    exact Hentry.
Defined.

Lemma redis_failure_is_not_a_miss_witness :
  let w := Demo.with_faults [Some "dial tcp 127.0.0.1:6379: connection refused"] Demo.fresh in
  hd None (faults w) = Some "dial tcp 127.0.0.1:6379: connection refused"
  ∧ (getMenuFromCache (L := Demo.lib) "r1" w).1 =
      Err "redis error: dial tcp 127.0.0.1:6379: connection refused"
  ∧ trace (getMenuFromCache (L := Demo.lib) "r1" w).2 = [ERedisGet "r1"]
  ∧ redis (getMenuFromCache (L := Demo.lib) "r1" w).2 = ∅.
Proof.
  intros w. split; [reflexivity|].
  apply (redis_failure_is_not_a_miss (L := Demo.lib) "r1"
           "dial tcp 127.0.0.1:6379: connection refused" w).
  reflexivity.
Defined.

Lemma placeOrder_success_response_witness :
  let resp := (placeOrder (L := Demo.lib) (Ok (Demo.order_r1 (Some Demo.two_items))) Demo.fresh).1 in
  code resp = 200
  ∧ ∃ n : Z,
      n = (rand_Intn (GoLib := Demo.lib) 10000 (rng Demo.fresh)).1
      ∧ 0 ≤ n < 10000
      ∧ resp = {| code := 200;
                  body := JSONObject [("order_id", Sprintf_d n); ("status", "created")] |}.
Proof.
  intros resp. split; [vm_compute; reflexivity|].
  apply (placeOrder_success_response (L := Demo.lib) (HL := demo_lib_ok)).
  vm_compute. reflexivity.
Defined.

Lemma confirmDelivery_publishes_once_witness :
  let req := {| Deliver_OrderID := "o1"; Deliver_RiderID := "rd1" |} in
  let done := confirmDelivery (Ok req) Demo.fresh in
  done.1 = {| code := 200; body := JSONObject [("status", "Delivered")] |}
  ∧ kafka done.2 !! "orders" = Some ["Order o1 Delivered"]
  ∧ confirmDelivery (Ok {| Deliver_OrderID := "o1"; Deliver_RiderID := "" |})
      Demo.fresh =
      ({| code := 400;
          body := JSONObject [("error", "Missing order_id or rider_id")] |}, Demo.fresh).
Proof.
  intros req done. split; [|split].
  - apply (confirmDelivery_publishes_once req Demo.fresh);
      [discriminate | discriminate | reflexivity].
  - destruct (proj1 (confirmDelivery_publishes_once req Demo.fresh))
      as (_ & Hkafka & _); [discriminate | discriminate | reflexivity |].
    unfold done. rewrite Hkafka. apply lookup_insert_eq.
  - apply (confirmDelivery_publishes_once
             {| Deliver_OrderID := "o1"; Deliver_RiderID := "" |} Demo.fresh).
    right. reflexivity.
Defined.

Lemma relay_commits_before_publishing_witness :
  let req := {| Deliver_OrderID := "o1"; Deliver_RiderID := "rd1" |} in
  let w := (confirmDelivery (Ok req) Demo.fresh).2 in
  (relay_iteration w).1 = Looping
  ∧ trace (consumeOrderDeliveredEvent 2 w).2 =
      trace w ++ [EKafkaRead "orders"; EKafkaCommit "orders" 0]
        ++ EKafkaWrite "order-delivered" "Notification: Order o1 Delivered"
        :: [ELog "Notification: %s"; EKafkaRead "orders"]
  ∧ ∃ pre' offset value,
      [EKafkaRead "orders"; EKafkaCommit "orders" 0] =
        pre' ++ [EKafkaRead "orders"; EKafkaCommit "orders" offset]
      ∧ orders_log w !! offset = Some value
      ∧ "order-delivered" = "order-delivered"
      ∧ "Notification: Order o1 Delivered" = "Notification: " +:+ value
      ∧ EKafkaCommit "orders" offset ∉ [ELog "Notification: %s"; EKafkaRead "orders"].
Proof.
  intros req w. split; [vm_compute; reflexivity|].
  split; [vm_compute; reflexivity|].
  apply (relay_commits_before_publishing 2 w).
  vm_compute. reflexivity.
Defined.

Lemma sendNotification_recipient_witness :
  let stranger := {| Recipient := "admin"; Notification_OrderID := "o1"; Message := "hello" |} in
  let rider := {| Recipient := "rider"; Notification_OrderID := "o1"; Message := "hello" |} in
  sendNotification (Ok stranger) Demo.fresh =
    ({| code := 400; body := JSONObject [("error", "Invalid recipient")] |}, Demo.fresh)
  ∧ (sendNotification (Ok rider) Demo.fresh).1 =
      {| code := 200; body := JSONObject [("status", "sent")] |}.
Proof.
  intros stranger rider. split.
  - apply (sendNotification_recipient stranger Demo.fresh).
    rewrite !elem_of_cons, elem_of_nil.
    intros [H|[H|[H|[]]]]; discriminate H.
  - apply (sendNotification_recipient rider Demo.fresh).
    rewrite !elem_of_cons. auto.
Defined.

Lemma placeOrder_accepts_any_quantity_witness :
  let order := Demo.order_r1 (Some [ {| MenuID := "m1"; Quantity := -2 |} ]) in
  code (placeOrder (L := Demo.lib) (Ok order) Demo.fresh).1 = 200
  ∧ kafka (placeOrder (L := Demo.lib) (Ok order) Demo.fresh).2 !! "orders" =
      Some ["Order Created: 42 | Restaurant: r1 | Total: -20.00"].
Proof.
  intros order. split; [|vm_compute; reflexivity].
  apply (placeOrder_accepts_any_quantity (L := Demo.lib) order Demo.menu_r1 Demo.fresh).
  - discriminate.
  - discriminate.
  - vm_compute. reflexivity.
  - vm_compute. reflexivity.
Defined.

(** * Further properties of the handlers *)

Section MoreLifecycle.
Context {L : GoLib}.

(** X1. Accept: with a field empty the answer is 400 and the world is left
    as it was.  Otherwise the one write to the order topic decides: when it
    succeeds the answer is 200 {status: accepted} and the topic gains
    "Order <order_id> Accept Order"; when it fails the answer is 500 with the
    wrapped Kafka error and no topic changes.  The cache is never touched. *)
Theorem acceptOrder_outcomes (req : AcceptOrderRequest) (w : World) :
  (Accept_OrderID req = "" ∨ Accept_RestaurantID req = "" →
     acceptOrder (Ok req) w =
       ({| code := 400;
           body := JSONObject [("error", "Missing order_id or restaurant_id")] |}, w))
  ∧ (Accept_OrderID req ≠ "" → Accept_RestaurantID req ≠ "" →
     redis (acceptOrder (Ok req) w).2 = redis w
     ∧ match hd None (faults w) with
       | None =>
           (acceptOrder (Ok req) w).1 =
             {| code := 200; body := JSONObject [("status", "accepted")] |}
           ∧ kafka (acceptOrder (Ok req) w).2 =
               <["orders" := orders_log w
                   ++ ["Order " +:+ Accept_OrderID req +:+ " Accept Order"]]> (kafka w)
       | Some e =>
           (acceptOrder (Ok req) w).1 =
             {| code := 500;
                body := JSONObject [("error", "failed to publish to Kafka: " +:+ e)] |}
           ∧ kafka (acceptOrder (Ok req) w).2 = kafka w
       end).
Proof.
  unfold acceptOrder, orders_log. split.
  - intros [Hempty|Hempty]; rewrite Hempty; simpl.
    + reflexivity.
    + rewrite orb_true_r. reflexivity.
  - intros Horder Hrestaurant.
    destruct (String.eqb_spec (Accept_OrderID req) ""); [contradiction|].
    destruct (String.eqb_spec (Accept_RestaurantID req) ""); [contradiction|].
    simpl. unfold publishAcceptOrderEvent. run.
    destruct (hd None (faults w)); run; auto.
Qed.

(** X2. ConfirmPickup checks no field: for every bound request, empty
    identifiers included, a successful write appends
    "Order <order_id> Confirm Pickup" to the order topic and the answer is
    200 {status: picked_up}; a failed write gives 500 with the wrapped error
    and leaves the topics as they were. *)
Theorem confirmPickup_checks_nothing (req : PickupRequest) (w : World) :
  match hd None (faults w) with
  | None =>
      (confirmPickup (Ok req) w).1 =
        {| code := 200; body := JSONObject [("status", "picked_up")] |}
      ∧ kafka (confirmPickup (Ok req) w).2 =
          <["orders" := orders_log w
              ++ ["Order " +:+ Pickup_OrderID req +:+ " Confirm Pickup"]]> (kafka w)
  | Some e =>
      (confirmPickup (Ok req) w).1 =
        {| code := 500;
           body := JSONObject [("error", "failed to publish to Kafka: " +:+ e)] |}
      ∧ kafka (confirmPickup (Ok req) w).2 = kafka w
  end.
Proof.
  unfold confirmPickup, publishConfirmPickupEvent, orders_log. run.
  destruct (hd None (faults w)); run; auto.
Qed.

(** X3. ConfirmDelivery whose write to the order topic fails: the answer is
    500 and carries the text of the wrapped Kafka error, no topic changes,
    and the write is tried once, with no retry. *)
Theorem confirmDelivery_publish_failure (req : DeliverRequest) (e : string) (w : World) :
  Deliver_OrderID req ≠ "" → Deliver_RiderID req ≠ "" →
  hd None (faults w) = Some e →
  (confirmDelivery (Ok req) w).1 =
    {| code := 500;
       body := JSONObject [("error", "failed to publish to Kafka: " +:+ e)] |}
  ∧ kafka (confirmDelivery (Ok req) w).2 = kafka w
  ∧ trace (confirmDelivery (Ok req) w).2 =
      trace w ++ [ ELog "Rider %s delivering order %s";
                   ELog "Publishing to Kafka: %s";
                   EKafkaWrite "orders" ("Order " +:+ Deliver_OrderID req +:+ " Delivered") ].
Proof.
  intros Horder Hrider Hdown. unfold confirmDelivery.
  destruct (String.eqb_spec (Deliver_OrderID req) ""); [contradiction|].
  destruct (String.eqb_spec (Deliver_RiderID req) ""); [contradiction|].
  simpl. unfold publishOrderDeliveredEvent. run. rewrite Hdown. run.
  rewrite <- !app_assoc. auto.
Qed.

(** X4. Create whose write to the order topic fails after the menu was
    resolved: the answer is 500 {error: Failed to publish order event} and no
    topic changes, but nothing is rolled back: the cache stays as the menu
    look-up left it and the generator has moved on by the identifier drawn. *)
Theorem placeOrder_publish_failure (order : Order) (menu : RestaurantMenu) (e : string)
    (w : World) :
  let looked_up := getMenuFromCache (Order_RestaurantID order) w in
  Order_RestaurantID order ≠ "" → Items order ≠ None →
  looked_up.1 = Ok menu →
  hd None (faults looked_up.2) = Some e →
  (placeOrder (Ok order) w).1 =
    {| code := 500; body := JSONObject [("error", "Failed to publish order event")] |}
  ∧ kafka (placeOrder (Ok order) w).2 = kafka w
  ∧ redis (placeOrder (Ok order) w).2 = redis looked_up.2
  ∧ rng (placeOrder (Ok order) w).2 = (rand_Intn 10000 (rng w)).2.
Proof.
  intros looked_up Hrid Hitems Hmenu Hdown. subst looked_up.
  pose proof (getMenuFromCache_frame (Order_RestaurantID order) w) as (Hrng & Hkafka & _).
  destruct (getMenuFromCache (Order_RestaurantID order) w) as [fetched w1] eqn:Hget.
  simpl in Hmenu, Hdown, Hrng, Hkafka. subst fetched.
  unfold placeOrder, publishOrderEvent.
  destruct (String.eqb_spec (Order_RestaurantID order) ""); [contradiction|].
  rewrite bool_decide_eq_false_2 by exact Hitems.
  run. rewrite Hget. run. rewrite Hdown. run. rewrite Hrng, Hkafka. auto.
Qed.

(** X5. Create reads two fields of the request only: two orders with the
    same restaurant_id and items get the same answer and leave the same
    world, whatever order_id, total_amount and status the client sent. *)
Theorem placeOrder_ignores_client_fields (order1 order2 : Order) (w : World) :
  Order_RestaurantID order1 = Order_RestaurantID order2 →
  Items order1 = Items order2 →
  placeOrder (Ok order1) w = placeOrder (Ok order2) w.
Proof.
  destruct order1, order2. simpl. intros -> ->. reflexivity.
Qed.

(** Items that are all absent from the menu leave the running total alone. *)
Lemma price_items_all_absent (items : list OrderItem) (menu : list MenuItem)
    (total : float64) :
  Forall (fun item => MenuID item ∉ ID <$> menu) items →
  price_items items menu total = total.
Proof.
  unfold price_items. intros Habsent. revert total.
  induction Habsent as [|item items Hitem _ IH]; intros total; [reflexivity|].
  simpl. rewrite price_item_absent by exact Hitem. apply IH.
Qed.

(** X6. An order none of whose items is on the menu, the empty non-nil list
    included, is priced 0 and accepted like any other: the answer is 200 and
    the event carries the total 0. *)
Theorem placeOrder_prices_unknown_items_at_zero (order : Order) (items : list OrderItem)
    (menu : RestaurantMenu) (w : World) :
  Order_RestaurantID order ≠ "" →
  Items order = Some items →
  Forall (fun item => MenuID item ∉ ID <$> Menu menu) items →
  (getMenuFromCache (Order_RestaurantID order) w).1 = Ok menu →
  hd None (faults (getMenuFromCache (Order_RestaurantID order) w).2) = None →
  order_total (Items order) menu = 0%float
  ∧ code (placeOrder (Ok order) w).1 = 200
  ∧ ∃ order_id,
      kafka (placeOrder (Ok order) w).2 !! "orders" =
        Some (orders_log w
              ++ ["Order Created: " +:+ order_id +:+ " | Restaurant: "
                    +:+ Order_RestaurantID order +:+ " | Total: " +:+ fmt_float 2 0%float]).
Proof.
  intros Hrid Hitems Habsent Hmenu Hup.
  assert (Htotal : order_total (Items order) menu = 0%float).
  { rewrite Hitems. apply price_items_all_absent, Habsent. }
  split; [exact Htotal|].
  destruct (placeOrder_created order menu w) as [Hresp Hkafka]; auto.
  { rewrite Hitems. discriminate. }
  rewrite Hresp, Hkafka, Htotal. split; [reflexivity|].
  eexists. apply lookup_insert_eq.
Qed.

End MoreLifecycle.

Section MoreCache.
Context {L : GoLib}.

Lemma menu_eta (menu : RestaurantMenu) :
  {| RestaurantID := RestaurantID menu; Menu := Menu menu |} = menu.
Proof. destruct menu. reflexivity. Qed.

(** A miss, step by step: the cache read succeeds and finds no entry. *)
Lemma getMenuFromCache_miss (restaurantID : string) (w : World) :
  hd None (faults w) = None →
  redis w !! restaurantID = None →
  match (getMenuFromCache restaurantID w).1 with
  | Ok menu =>
      seeded restaurantID w menu
      ∧ trace (getMenuFromCache restaurantID w).2 =
          trace w ++ [ ERedisGet restaurantID; EReadFile "menu.json";
                       ERedisSet restaurantID (marshal_dropping_error menu) time_Hour ]
      ∧ redis (getMenuFromCache restaurantID w).2 =
          match hd None (tail (faults w)) with
          | None => <[restaurantID := marshal_dropping_error menu]> (redis w)
          | Some _ => redis w
          end
  | Err _ =>
      (∀ menu, ¬ seeded restaurantID w menu)
      ∧ trace (getMenuFromCache restaurantID w).2 =
          trace w ++ [ERedisGet restaurantID; EReadFile "menu.json"]
      ∧ redis (getMenuFromCache restaurantID w).2 = redis w
  end.
Proof.
  intros Hup Hmiss. unfold getMenuFromCache, fetchMenuFromFile, seeded. run.
  rewrite Hup. run. rewrite Hmiss. run.
  destruct (files w !! "menu.json") as [file|] eqn:Hfile; run.
  - destruct (json_Unmarshal file) as [menuData|e] eqn:Hdec; run.
    + destruct (String.eqb_spec (RestaurantID menuData) restaurantID) as [Hid|Hid]; run.
      * destruct (hd None (tail (faults w))); run;
          rewrite <- !app_assoc; eauto 10.
      * rewrite <- !app_assoc. split; [|auto].
        intros menu (file' & [= <-] & Hdec' & Hid'). congruence.
    + rewrite <- !app_assoc. split; [|auto].
      intros menu (file' & [= <-] & Hdec' & _). congruence.
  - rewrite <- !app_assoc. split; [|auto].
    intros menu (file' & Hfile' & _). discriminate.
Qed.

(** X7. A miss whose fetch fails populates nothing.  When the cache has no
    entry for the restaurant and the seed file is missing, does not decode,
    or is another restaurant's, the look-up returns an error after reading
    the cache and the file, and writes nothing to the cache; Create then
    answers 500 without drawing an identifier or publishing. *)
Theorem fetch_failure_populates_nothing (order : Order) (w : World) :
  let restaurantID := Order_RestaurantID order in
  hd None (faults w) = None →
  redis w !! restaurantID = None →
  (∀ menu, ¬ seeded restaurantID w menu) →
  (∃ e, (getMenuFromCache restaurantID w).1 = Err e)
  ∧ redis (getMenuFromCache restaurantID w).2 = redis w
  ∧ trace (getMenuFromCache restaurantID w).2 =
      trace w ++ [ERedisGet restaurantID; EReadFile "menu.json"]
  ∧ (restaurantID ≠ "" → Items order ≠ None →
     (placeOrder (Ok order) w).1 =
       {| code := 500; body := JSONObject [("error", "Failed to fetch restaurant menu")] |}
     ∧ (placeOrder (Ok order) w).2 = (getMenuFromCache restaurantID w).2).
Proof.
  intros restaurantID Hup Hmiss Hunseeded.
  pose proof (getMenuFromCache_miss restaurantID w Hup Hmiss) as Hstep.
  destruct (getMenuFromCache restaurantID w) as [[menu|e] w1] eqn:Hget; simpl in Hstep.
  - destruct Hstep as [Hseeded _]. exfalso. exact (Hunseeded menu Hseeded).
  - destruct Hstep as (_ & Htrace & Hredis). simpl.
    split; [eauto|]. split; [exact Hredis|]. split; [exact Htrace|].
    intros Hrid Hitems. unfold placeOrder. fold restaurantID.
    destruct (String.eqb_spec restaurantID ""); [contradiction|].
    rewrite bool_decide_eq_false_2 by exact Hitems.
    run. rewrite Hget. run. auto.
Qed.

(** X8. A hit changes nothing.  When the cache holds an entry for the
    restaurant and the read succeeds, the look-up returns what the entry
    decodes to, or the parse error when it does not decode; its only call is
    the cache read (the seed file is not opened), and the cache is left as it
    was, broken entry included. *)
Theorem getMenuFromCache_hit (restaurantID data : string) (w : World) :
  hd None (faults w) = None →
  redis w !! restaurantID = Some data →
  (getMenuFromCache restaurantID w).1 =
    match json_Unmarshal data with
    | Ok menu => Ok menu
    | Err e => Err ("failed to parse cached menu: " +:+ e)
    end
  ∧ trace (getMenuFromCache restaurantID w).2 = trace w ++ [ERedisGet restaurantID]
  ∧ redis (getMenuFromCache restaurantID w).2 = redis w.
Proof.
  intros Hup Hentry. unfold getMenuFromCache. run.
  rewrite Hup. run. rewrite Hentry. run.
  destruct (json_Unmarshal data); run; auto.
Qed.

(** A look-up leaves an entry it found where it is. *)
Lemma getMenuFromCache_keeps_entry (restaurantID data : string) (w : World) :
  redis w !! restaurantID = Some data →
  redis (getMenuFromCache restaurantID w).2 !! restaurantID = Some data.
Proof.
  intros Hentry. unfold getMenuFromCache. run.
  destruct (hd None (faults w)); run; [exact Hentry|].
  rewrite Hentry. run. destruct (json_Unmarshal data); run; exact Hentry.
Qed.

(** X9. A cached text that does not decode is never repaired: as long as it
    sits under the key, every look-up of any run of look-ups fails, and the
    text is still there afterwards. *)
Theorem broken_entry_is_never_repaired (restaurantID data e : string) (n : nat)
    (w : World) :
  redis w !! restaurantID = Some data →
  json_Unmarshal data = Err e →
  (∀ r, r ∈ (repeated_Get restaurantID n w).1 → ∃ msg, r = Err msg)
  ∧ redis (repeated_Get restaurantID n w).2 !! restaurantID = Some data.
Proof.
  intros Hentry Hbroken. revert w Hentry.
  induction n as [|n IH]; intros w Hentry.
  - split; [intros r Hin; inversion Hin | exact Hentry].
  - pose proof (getMenuFromCache_keeps_entry restaurantID data w Hentry) as Hkept.
    assert (Hfails : ∃ msg, (getMenuFromCache restaurantID w).1 = Err msg).
    { unfold getMenuFromCache. run.
      destruct (hd None (faults w)); run; [eauto|].
      rewrite Hentry. run. rewrite Hbroken. run. eauto. }
    destruct (IH _ Hkept) as [Hrest Hstill].
    rewrite repeated_Get_cons. split.
    + intros r Hin. apply elem_of_cons in Hin as [->|Hin]; [exact Hfails|auto].
    + simpl. unfold mbind, M_bind, bind, mret, M_ret, ret.
      destruct (getMenuFromCache restaurantID w) as [r w1]. simpl in *.
      destruct (repeated_Get restaurantID n w1) as [rs w2]. exact Hstill.
Qed.

(** X10. A look-up writes under its own key only, and only what it returns:
    every other key of the cache keeps its entry, and when the entry under
    the key changes, the look-up has returned a menu and the new entry is the
    marshalled text of that menu. *)
Theorem getMenuFromCache_writes_own_key (restaurantID : string) (w : World) :
  (∀ key, key ≠ restaurantID →
     redis (getMenuFromCache restaurantID w).2 !! key = redis w !! key)
  ∧ (redis (getMenuFromCache restaurantID w).2 !! restaurantID = redis w !! restaurantID
     ∨ ∃ menu,
         (getMenuFromCache restaurantID w).1 = Ok menu
         ∧ redis (getMenuFromCache restaurantID w).2 !! restaurantID
             = Some (marshal_dropping_error menu)).
Proof.
  unfold getMenuFromCache, fetchMenuFromFile. run.
  repeat split_branch;
    (split; [intros key Hkey; rewrite ?lookup_insert_ne by congruence; reflexivity|]);
    first [ left; congruence
          | right; eexists; split; [reflexivity|apply lookup_insert_eq] ].
Qed.

(** X11. The seed file holds one restaurant.  Two look-ups that both miss the
    cache and both return a menu, in worlds with the same seed files, were
    asked for the same restaurant and return the same menu, whose
    restaurant_id is the one asked for. *)
Theorem seed_file_holds_one_restaurant (a b : string) (w w' : World)
    (menu_a menu_b : RestaurantMenu) :
  files w' = files w →
  hd None (faults w) = None → redis w !! a = None →
  hd None (faults w') = None → redis w' !! b = None →
  (getMenuFromCache a w).1 = Ok menu_a →
  (getMenuFromCache b w').1 = Ok menu_b →
  a = b ∧ menu_a = menu_b ∧ RestaurantID menu_a = a.
Proof.
  intros Hfiles Hup Hmiss Hup' Hmiss' Ha Hb.
  pose proof (getMenuFromCache_miss a w Hup Hmiss) as Hstep.
  pose proof (getMenuFromCache_miss b w' Hup' Hmiss') as Hstep'.
  rewrite Ha in Hstep. rewrite Hb in Hstep'.
  destruct Hstep as [(file & Hfile & Hdec & Hid) _].
  destruct Hstep' as [(file' & Hfile' & Hdec' & Hid') _].
  rewrite Hfiles, Hfile in Hfile'. injection Hfile' as <-.
  rewrite Hdec in Hdec'. injection Hdec' as <-.
  split; [congruence|]. split; [reflexivity|exact Hid].
Qed.

(** GET /menu and the look-up of Create take the same steps on the cache. *)
Lemma getMenu_getMenuFromCache (restaurantID : string) (w : World) :
  restaurantID ≠ "" →
  redis (getMenu restaurantID w).2 = redis (getMenuFromCache restaurantID w).2
  ∧ files (getMenu restaurantID w).2 = files w
  ∧ match (getMenuFromCache restaurantID w).1 with
    | Ok menu =>
        (getMenu restaurantID w).1 = {| code := 200; body := JSONMenu menu |}
    | Err _ => code (getMenu restaurantID w).1 = 500
    end.
Proof.
  intros Hid. unfold getMenu, getMenuFromCache, fetchMenuFromJSON, fetchMenuFromFile.
  destruct (String.eqb_spec restaurantID ""); [contradiction|].
  run. repeat split_branch; rewrite ?menu_eta; auto.
Qed.

(** X12. The two implementations of the menu look-up agree.  For a non-empty
    restaurant_id, GET /menu answers 200 with a menu exactly when Create's
    look-up returns that menu, answers 500 when it returns an error, and
    leaves the same cache. *)
Theorem getMenu_agrees_with_getMenuFromCache (restaurantID : string) (w : World) :
  restaurantID ≠ "" →
  redis (getMenu restaurantID w).2 = redis (getMenuFromCache restaurantID w).2
  ∧ match (getMenuFromCache restaurantID w).1 with
    | Ok menu =>
        (getMenu restaurantID w).1 = {| code := 200; body := JSONMenu menu |}
    | Err _ => code (getMenu restaurantID w).1 = 500
    end.
Proof.
  intros Hid. destruct (getMenu_getMenuFromCache restaurantID w Hid) as (Hredis & _ & Hres).
  split; assumption.
Qed.

(** X13. A menu shown by GET /menu is the menu Create prices with: after
    GET /menu has answered 200 with a menu, as long as the seed files and the
    entry under the key stay as it left them, Create's look-up returns that
    menu whenever its cache read does not fail. *)
Theorem getMenu_then_getMenuFromCache {HL : GoLibOk L} (restaurantID : string)
    (w w' : World) (menu : RestaurantMenu) :
  restaurantID ≠ "" →
  (getMenu restaurantID w).1 = {| code := 200; body := JSONMenu menu |} →
  files w' = files (getMenu restaurantID w).2 →
  redis w' !! restaurantID = redis (getMenu restaurantID w).2 !! restaurantID →
  hd None (faults w') = None →
  (getMenuFromCache restaurantID w').1 = Ok menu.
Proof.
  intros Hid Hshown Hfiles Hentry Hup.
  destruct (getMenu_getMenuFromCache restaurantID w Hid) as (Hredis & Hsame & Hres).
  destruct (getMenuFromCache restaurantID w).1 as [menu'|e] eqn:Hget.
  - rewrite Hshown in Hres. injection Hres as <-.
    apply getMenuFromCache_serves in Hget.
    apply (serves_same_sources restaurantID _ w') in Hget.
    + apply (serves_getMenuFromCache _ _ _ Hget), Hup.
    + rewrite Hfiles, Hsame.
      symmetry. apply (getMenuFromCache_frame restaurantID w).
    + rewrite Hentry, Hredis. reflexivity.
  - rewrite Hshown in Hres. discriminate Hres.
Qed.

End MoreCache.

Section MoreLists.
Context {L : GoLib} {C : GoLibLists}.

(** X14. An answer other than 200 of a read handler never changes the cache:
    whenever GET /menu, GET /restaurant or GET /rider fails, for a missing
    parameter, a Redis error, a seed file that is missing or does not decode,
    or a cached text that does not decode, the cache is as it was. *)
Theorem failed_reads_leave_the_cache (w : World) :
  (∀ restaurantID,
     code (getMenu restaurantID w).1 ≠ 200 → redis (getMenu restaurantID w).2 = redis w)
  ∧ (list_code (getRestaurant w).1 ≠ 200 → redis (getRestaurant w).2 = redis w)
  ∧ (list_code (getRider w).1 ≠ 200 → redis (getRider w).2 = redis w).
Proof.
  split; [|split].
  - intros restaurantID. unfold getMenu, fetchMenuFromJSON.
    destruct (String.eqb restaurantID ""); [reflexivity|].
    run. repeat split_branch; intros Hcode; first [reflexivity | contradiction].
  - unfold getRestaurant, fetchRestaurantFromJSON.
    run. repeat split_branch; intros Hcode; first [reflexivity | contradiction].
  - unfold getRider, fetchRidersFromJSON.
    run. repeat split_branch; intros Hcode; first [reflexivity | contradiction].
Qed.

(** X15. The list handlers write under their own key only: GET /restaurant
    leaves every cache key but restaurant as it was, and GET /rider every key
    but rider; neither touches a topic. *)
Theorem list_handlers_write_own_key (w : World) :
  (∀ key, key ≠ "restaurant" → redis (getRestaurant w).2 !! key = redis w !! key)
  ∧ (∀ key, key ≠ "rider" → redis (getRider w).2 !! key = redis w !! key)
  ∧ kafka (getRestaurant w).2 = kafka w
  ∧ kafka (getRider w).2 = kafka w.
Proof.
  unfold getRestaurant, fetchRestaurantFromJSON, getRider, fetchRidersFromJSON.
  split; [|split; [|split]]; run; repeat split_branch;
    try reflexivity;
    intros key Hkey; rewrite ?lookup_insert_ne by congruence; reflexivity.
Qed.

(** GET /restaurant answering 200 leaves a world that serves its list. *)
Lemma getRestaurant_serves {HC : GoLibListsOk C} (w : World)
    (records : option (list Restaurant)) :
  (getRestaurant w).1 = {| list_code := 200; list_body := ListUnder "restaurant" records |} →
  serves_restaurants (getRestaurant w).2 records.
Proof.
  unfold getRestaurant, fetchRestaurantFromJSON, serves_restaurants. run.
  destruct (hd None (faults w)); run; [discriminate|].
  destruct (redis w !! "restaurant") as [data|] eqn:Hentry; run.
  - destruct (json_Unmarshal_restaurants data) eqn:Hdec; run; [|discriminate].
    intros [= <-]. rewrite Hentry. exact Hdec.
  - destruct (files w !! "restaurants.json") as [file|] eqn:Hfile; run; [|discriminate].
    destruct (json_Unmarshal_restaurants_file file) as [fetched|] eqn:Hdec; run;
      [|discriminate].
    destruct (hd None (tail (faults w))); run; intros [= <-].
    + rewrite Hentry. eauto.
    + rewrite lookup_insert_eq. unfold marshal_restaurants_dropping_error.
      destruct (restaurants_roundtrip file fetched (or_introl Hdec)) as (data' & -> & Hback).
      exact Hback.
Qed.

Lemma serves_restaurants_getRestaurant (w : World) (records : option (list Restaurant)) :
  serves_restaurants w records →
  hd None (faults w) = None →
  (getRestaurant w).1 = {| list_code := 200; list_body := ListUnder "restaurant" records |}.
Proof.
  unfold getRestaurant, fetchRestaurantFromJSON, serves_restaurants. run.
  intros Hserves ->. run.
  destruct (redis w !! "restaurant") as [data|]; run.
  - rewrite Hserves. reflexivity.
  - destruct Hserves as (file & -> & ->). run.
    destruct (hd None (tail (faults w))); reflexivity.
Qed.

(** X16. GET /restaurant is repeatable: after it has answered 200 with a
    list, read from the seed file or served from the cache, as long as the
    seed file and the entry under the key restaurant stay as it left them,
    the next GET /restaurant whose cache read does not fail answers 200 with
    the same list. *)
Theorem getRestaurant_repeatable {HC : GoLibListsOk C} (w w' : World)
    (records : option (list Restaurant)) :
  (getRestaurant w).1 = {| list_code := 200; list_body := ListUnder "restaurant" records |} →
  files w' !! "restaurants.json" = files (getRestaurant w).2 !! "restaurants.json" →
  redis w' !! "restaurant" = redis (getRestaurant w).2 !! "restaurant" →
  hd None (faults w') = None →
  (getRestaurant w').1 = {| list_code := 200; list_body := ListUnder "restaurant" records |}.
Proof.
  intros Hfirst Hfile Hentry Hup.
  apply serves_restaurants_getRestaurant; [|exact Hup].
  apply getRestaurant_serves in Hfirst.
  unfold serves_restaurants in *. rewrite Hentry, Hfile. exact Hfirst.
Qed.

Lemma getRider_serves {HC : GoLibListsOk C} (w : World) (records : option (list Rider)) :
  (getRider w).1 = {| list_code := 200; list_body := ListUnder "rider" records |} →
  serves_riders (getRider w).2 records.
Proof.
  unfold getRider, fetchRidersFromJSON, serves_riders. run.
  destruct (hd None (faults w)); run; [discriminate|].
  destruct (redis w !! "rider") as [data|] eqn:Hentry; run.
  - destruct (json_Unmarshal_riders data) eqn:Hdec; run; [|discriminate].
    intros [= <-]. rewrite Hentry. exact Hdec.
  - destruct (files w !! "rider.json") as [file|] eqn:Hfile; run; [|discriminate].
    destruct (json_Unmarshal_riders_file file) as [fetched|] eqn:Hdec; run; [|discriminate].
    destruct (hd None (tail (faults w))); run; intros [= <-].
    + rewrite Hentry. eauto.
    + rewrite lookup_insert_eq. unfold marshal_riders_dropping_error.
      destruct (riders_roundtrip file fetched (or_introl Hdec)) as (data' & -> & Hback).
      exact Hback.
Qed.

Lemma serves_riders_getRider (w : World) (records : option (list Rider)) :
  serves_riders w records →
  hd None (faults w) = None →
  (getRider w).1 = {| list_code := 200; list_body := ListUnder "rider" records |}.
Proof.
  unfold getRider, fetchRidersFromJSON, serves_riders. run.
  intros Hserves ->. run.
  destruct (redis w !! "rider") as [data|]; run.
  - rewrite Hserves. reflexivity.
  - destruct Hserves as (file & -> & ->). run.
    destruct (hd None (tail (faults w))); reflexivity.
Qed.

(** X17. GET /rider is repeatable in the same way. *)
Theorem getRider_repeatable {HC : GoLibListsOk C} (w w' : World)
    (records : option (list Rider)) :
  (getRider w).1 = {| list_code := 200; list_body := ListUnder "rider" records |} →
  files w' !! "rider.json" = files (getRider w).2 !! "rider.json" →
  redis w' !! "rider" = redis (getRider w).2 !! "rider" →
  hd None (faults w') = None →
  (getRider w').1 = {| list_code := 200; list_body := ListUnder "rider" records |}.
Proof.
  intros Hfirst Hfile Hentry Hup.
  apply serves_riders_getRider; [|exact Hup].
  apply getRider_serves in Hfirst.
  unfold serves_riders in *. rewrite Hentry, Hfile. exact Hfirst.
Qed.

(** X18. Menus and lists share one key space.  Once GET /rider has cached
    the rider list, a menu look-up for the restaurant_id "rider" is answered
    from the rider list's entry: it returns what that text decodes to as a
    menu (or the parse error) and never opens menu.json. *)
Theorem rider_list_shadows_menu_rider (w w' : World) (records : option (list Rider)) :
  hd None (faults w) = None → hd None (tail (faults w)) = None →
  redis w !! "rider" = None →
  (getRider w).1 = {| list_code := 200; list_body := ListUnder "rider" records |} →
  redis w' !! "rider" = redis (getRider w).2 !! "rider" →
  hd None (faults w') = None →
  (getMenuFromCache "rider" w').1 =
    match json_Unmarshal (marshal_riders_dropping_error records) with
    | Ok menu => Ok menu
    | Err e => Err ("failed to parse cached menu: " +:+ e)
    end
  ∧ trace (getMenuFromCache "rider" w').2 = trace w' ++ [ERedisGet "rider"].
Proof.
  intros Hup Hset Hmiss Hfirst Hentry Hup'.
  assert (Hcached : redis w' !! "rider" = Some (marshal_riders_dropping_error records)).
  { rewrite Hentry. revert Hfirst.
    unfold getRider, fetchRidersFromJSON. run. rewrite Hup. run. rewrite Hmiss. run.
    destruct (files w !! "rider.json"); run; [|discriminate].
    destruct (json_Unmarshal_riders_file _); run; [|discriminate].
    rewrite Hset. run. intros [= <-]. apply lookup_insert_eq. }
  unfold getMenuFromCache. run. rewrite Hup'. run. rewrite Hcached. run.
  destruct (json_Unmarshal _); run; auto.
Qed.

End MoreLists.

(** ** The relay, turn by turn *)

(** One turn that gets a message, by the outcomes of its three calls. *)
Lemma relay_iteration_message (w : World) (value : string) :
  hd None (faults w) = None →
  orders_log w !! reader_offset w = Some value →
  (relay_iteration w).1 = Looping
  ∧ reader_offset (relay_iteration w).2 = S (reader_offset w)
  ∧ committed_offset (relay_iteration w).2 =
      match hd None (tail (faults w)) with
      | None => S (reader_offset w)
      | Some _ => committed_offset w
      end
  ∧ kafka (relay_iteration w).2 =
      match hd None (tail (tail (faults w))) with
      | None =>
          <["order-delivered" := notifications_log w ++ ["Notification: " +:+ value]]>
            (kafka w)
      | Some _ => kafka w
      end
  ∧ faults (relay_iteration w).2 = tail (tail (tail (faults w)))
  ∧ redis (relay_iteration w).2 = redis w
  ∧ files (relay_iteration w).2 = files w.
Proof.
  unfold relay_iteration, processOrderDeliveredEvent, orders_log, notifications_log.
  intros Hup Hmsg. run. rewrite Hup. run. rewrite Hmsg. run.
  destruct (hd None (tail (faults w))); run;
    destruct (hd None (tail (tail (faults w)))); run; auto 10.
Qed.

(** One turn that gets no message, or whose read fails. *)
Lemma relay_iteration_idle (w : World) :
  hd None (faults w) ≠ None ∨ orders_log w !! reader_offset w = None →
  (relay_iteration w).1 ≠ Looping
  ∧ reader_offset (relay_iteration w).2 = reader_offset w
  ∧ committed_offset (relay_iteration w).2 = committed_offset w
  ∧ kafka (relay_iteration w).2 = kafka w
  ∧ redis (relay_iteration w).2 = redis w
  ∧ files (relay_iteration w).2 = files w.
Proof.
  unfold relay_iteration, processOrderDeliveredEvent, orders_log.
  intros Hidle. run.
  destruct (hd None (faults w)); run; [repeat split; auto; discriminate|].
  destruct Hidle as [Hdown|Hnone]; [contradiction|].
  rewrite Hnone. run. repeat split; auto; discriminate.
Qed.

Lemma insert_notifications (k : gmap string (list string)) (msgs : list string) :
  default [] (<["order-delivered" := msgs]> k !! "orders") = default [] (k !! "orders")
  ∧ default [] (<["order-delivered" := msgs]> k !! "order-delivered") = msgs.
Proof.
  rewrite lookup_insert_ne by discriminate. rewrite lookup_insert_eq. auto.
Qed.


(** X20. The relay is a reader of the order topic and of nothing else.  Over
    any number of turns and whatever fails, it leaves the order topic, the
    cache and the seed files as they were; its reader never moves back nor
    past the end of the topic; and the committed offset, once not ahead of
    the reader, never gets ahead of it. *)
Theorem relay_keeps_its_sources (turns : nat) (w : World) :
  orders_log (consumeOrderDeliveredEvent turns w).2 = orders_log w
  ∧ redis (consumeOrderDeliveredEvent turns w).2 = redis w
  ∧ files (consumeOrderDeliveredEvent turns w).2 = files w
  ∧ (reader_offset w ≤ reader_offset (consumeOrderDeliveredEvent turns w).2)%nat
  ∧ ((committed_offset w ≤ reader_offset w)%nat →
     (committed_offset (consumeOrderDeliveredEvent turns w).2
        ≤ reader_offset (consumeOrderDeliveredEvent turns w).2)%nat)
  ∧ ((reader_offset w ≤ length (orders_log w))%nat →
     (reader_offset (consumeOrderDeliveredEvent turns w).2 ≤ length (orders_log w))%nat).
Proof.
  revert w. induction turns as [|turns IH]; intros w.
  - simpl. repeat split; auto.
  - simpl. unfold mbind, M_bind, bind.
    destruct (hd None (faults w)) as [e|] eqn:Hup;
      [|destruct (orders_log w !! reader_offset w) as [value|] eqn:Hmsg].
    + destruct (relay_iteration_idle w) as (Hst & Hr & Hc & Hk & Hredis & Hfiles).
      { left. rewrite Hup. discriminate. }
      destruct (relay_iteration w) as [st w1]. simpl in *.
      assert (Hlog : orders_log w1 = orders_log w) by (unfold orders_log; rewrite Hk; reflexivity).
      destruct st; [contradiction|..]; simpl; rewrite ?Hlog, ?Hr, ?Hc; auto 10.
    + destruct (relay_iteration_message w value Hup Hmsg)
        as (Hst & Hr & Hc & Hk & _ & Hredis & Hfiles).
      apply lookup_lt_Some in Hmsg.
      destruct (relay_iteration w) as [st w1]. simpl in *. subst st.
      assert (Hlog : orders_log w1 = orders_log w).
      { unfold orders_log. rewrite Hk.
        destruct (hd None (tail (tail (faults w)))); [reflexivity|].
        apply insert_notifications. }
      destruct (IH w1) as (IHlog & IHredis & IHfiles & IHmono & IHcommitted & IHbound).
      rewrite IHlog, IHredis, IHfiles, Hlog, Hredis, Hfiles.
      rewrite Hlog, Hr in *.
      repeat split; auto; try lia.
      intros Hinv. apply IHcommitted. rewrite Hc.
      destruct (hd None (tail (faults w))); lia.
    + destruct (relay_iteration_idle w) as (Hst & Hr & Hc & Hk & Hredis & Hfiles).
      { right. exact Hmsg. }
      destruct (relay_iteration w) as [st w1]. simpl in *.
      assert (Hlog : orders_log w1 = orders_log w) by (unfold orders_log; rewrite Hk; reflexivity).
      destruct st; [contradiction|..]; simpl; rewrite ?Hlog, ?Hr, ?Hc; auto 10.
Qed.

(** X21. With no failure to come, the relay forwards everything pending and
    then waits: run for more turns than there are unread messages, it ends
    waiting in [ReadMessage]; the notification topic has gained, in order,
    "Notification: " followed by each unread message; the reader stands at
    the end of what was pending and, when anything was pending, so does the
    committed offset. *)
Theorem relay_forwards_pending_in_order (turns : nat) (w : World) :
  faults w = [] →
  (length (pending w) < turns)%nat →
  (consumeOrderDeliveredEvent turns w).1 = Waiting
  ∧ notifications_log (consumeOrderDeliveredEvent turns w).2 =
      notifications_log w ++ (String.append "Notification: " <$> pending w)
  ∧ reader_offset (consumeOrderDeliveredEvent turns w).2 =
      (reader_offset w + length (pending w))%nat
  ∧ (pending w ≠ [] →
     committed_offset (consumeOrderDeliveredEvent turns w).2 =
       (reader_offset w + length (pending w))%nat).
Proof.
  revert w. induction turns as [|turns IH]; intros w Hfaults Hturns; [lia|].
  simpl. unfold mbind, M_bind, bind.
  destruct (orders_log w !! reader_offset w) as [value|] eqn:Hmsg.
  - destruct (relay_iteration_message w value) as (Hst & Hr & Hc & Hk & Hf & _);
      [rewrite Hfaults; reflexivity | exact Hmsg |].
    rewrite Hfaults in Hc, Hk, Hf. simpl in Hc, Hk, Hf.
    assert (Hpending : pending w = value :: drop (S (reader_offset w)) (orders_log w)).
    { unfold pending. apply drop_S. exact Hmsg. }
    destruct (relay_iteration w) as [st w1]. simpl in *. subst st.
    assert (Hlog : orders_log w1 = orders_log w).
    { unfold orders_log. rewrite Hk. apply insert_notifications. }
    assert (Hnoti : notifications_log w1 = notifications_log w ++ ["Notification: " +:+ value]).
    { unfold notifications_log at 1. rewrite Hk. apply insert_notifications. }
    assert (Hpending1 : pending w1 = drop (S (reader_offset w)) (orders_log w)).
    { unfold pending. rewrite Hr, Hlog. reflexivity. }
    destruct (IH w1 Hf) as (IHst & IHnoti & IHr & IHc).
    { rewrite Hpending1. rewrite Hpending in Hturns. simpl in Hturns. lia. }
    rewrite IHst, IHnoti, IHr, Hnoti, Hpending, Hpending1, Hr. simpl.
    rewrite <- app_assoc. simpl.
    repeat split; try reflexivity; try lia.
    intros _. destruct (drop (S (reader_offset w)) (orders_log w)) as [|next rest] eqn:Hrest.
    + rewrite Hpending1 in *. clear IHc. simpl.
      assert (Hidle : orders_log w1 !! reader_offset w1 = None).
      { rewrite Hlog, Hr. apply lookup_ge_None.
        assert (Hlen : length (drop (S (reader_offset w)) (orders_log w)) = O)
          by (rewrite Hrest; reflexivity).
        rewrite length_drop in Hlen. lia. }
      destruct turns as [|turns]; simpl.
      * rewrite Hc. lia.
      * unfold mbind, M_bind, bind.
        destruct (relay_iteration_idle w1 (or_intror Hidle)) as (Hst1 & _ & Hc1 & _).
        destruct (relay_iteration w1) as [st1 w2]. simpl in *.
        destruct st1; [contradiction|..]; simpl; rewrite Hc1, Hc; lia.
    + rewrite IHc by (rewrite Hpending1; discriminate).
      rewrite Hpending1. simpl. lia.
  - destruct (relay_iteration_idle w (or_intror Hmsg)) as (Hst & Hr & Hc & Hk & _).
    assert (Hpending : pending w = []).
    { unfold pending. apply drop_ge. apply lookup_ge_None. exact Hmsg. }
    assert (Hwaiting : (relay_iteration w).1 = Waiting).
    { unfold relay_iteration. run. rewrite Hfaults. run.
      unfold orders_log in Hmsg. rewrite Hmsg. reflexivity. }
    destruct (relay_iteration w) as [st w1]. simpl in *. subst st. simpl.
    unfold notifications_log. rewrite Hk, Hr, Hpending. simpl.
    rewrite app_nil_r, Nat.add_0_r. repeat split; auto. intros Hne. contradiction.
Qed.

(** A turn of the relay right after a message was appended to the order
    topic, the reader having read everything before it. *)
Lemma relay_after_publish (w w1 : World) (payload : string) :
  kafka w1 = <["orders" := orders_log w ++ [payload]]> (kafka w) →
  reader_offset w1 = length (orders_log w) →
  faults w1 = [] →
  (relay_iteration w1).1 = Looping
  ∧ notifications_log (relay_iteration w1).2 =
      notifications_log w ++ ["Notification: " +:+ payload].
Proof.
  intros Hkafka Hreader Hfaults.
  assert (Hlog : orders_log w1 = orders_log w ++ [payload]).
  { unfold orders_log at 1. rewrite Hkafka, lookup_insert_eq. reflexivity. }
  assert (Hnoti : notifications_log w1 = notifications_log w).
  { unfold notifications_log. rewrite Hkafka, lookup_insert_ne by discriminate. reflexivity. }
  destruct (relay_iteration_message w1 payload) as (Hloop & _ & _ & Hk & _).
  - rewrite Hfaults. reflexivity.
  - rewrite Hlog, Hreader. apply list_lookup_middle. reflexivity.
  - split; [exact Hloop|]. rewrite Hfaults in Hk. simpl in Hk.
    unfold notifications_log at 1. rewrite Hk, lookup_insert_eq. simpl.
    rewrite Hnoti. reflexivity.
Qed.

(** X22. The relay forwards every kind of order event, not the delivered
    ones only.  With no failure to come and the reader at the end of the
    order topic, the turn of the relay that follows a successful Accept,
    ConfirmPickup or ConfirmDelivery appends "Notification: " followed by
    that handler's event to the notification topic. *)
Theorem relay_forwards_every_order_event (w : World) :
  faults w = [] →
  reader_offset w = length (orders_log w) →
  (∀ req, Accept_OrderID req ≠ "" → Accept_RestaurantID req ≠ "" →
     notifications_log (relay_iteration (acceptOrder (Ok req) w).2).2 =
       notifications_log w
         ++ ["Notification: Order " +:+ Accept_OrderID req +:+ " Accept Order"])
  ∧ (∀ req,
     notifications_log (relay_iteration (confirmPickup (Ok req) w).2).2 =
       notifications_log w
         ++ ["Notification: Order " +:+ Pickup_OrderID req +:+ " Confirm Pickup"])
  ∧ (∀ req, Deliver_OrderID req ≠ "" → Deliver_RiderID req ≠ "" →
     notifications_log (relay_iteration (confirmDelivery (Ok req) w).2).2 =
       notifications_log w
         ++ ["Notification: Order " +:+ Deliver_OrderID req +:+ " Delivered"]).
Proof.
  intros Hfaults Hreader. split; [|split].
  - intros req Horder Hrestaurant.
    apply (relay_after_publish w _ ("Order " +:+ Accept_OrderID req +:+ " Accept Order"));
      unfold acceptOrder, publishAcceptOrderEvent, orders_log;
      destruct (String.eqb_spec (Accept_OrderID req) ""); try contradiction;
      destruct (String.eqb_spec (Accept_RestaurantID req) ""); try contradiction;
      run; rewrite Hfaults; run; auto.
  - intros req.
    apply (relay_after_publish w _ ("Order " +:+ Pickup_OrderID req +:+ " Confirm Pickup"));
      unfold confirmPickup, publishConfirmPickupEvent, orders_log;
      run; rewrite Hfaults; run; auto.
  - intros req Horder Hrider.
    apply (relay_after_publish w _ ("Order " +:+ Deliver_OrderID req +:+ " Delivered"));
      unfold confirmDelivery, publishOrderDeliveredEvent, orders_log;
      destruct (String.eqb_spec (Deliver_OrderID req) ""); try contradiction;
      destruct (String.eqb_spec (Deliver_RiderID req) ""); try contradiction;
      run; rewrite Hfaults; run; auto.
Qed.

(** * The further properties at work on the seeded process *)

(** The list codec of [DemoLists] keeps the contract. *)
Lemma demo_lists_ok : GoLibListsOk DemoLists.lists.
Proof.
  split.
  - intros data records [Hdec|Hdec]; simpl in *;
      destruct (String.eqb data _) in Hdec; try discriminate;
      injection Hdec as <-; exists DemoLists.restaurants_text; split; reflexivity.
  - intros data records [Hdec|Hdec]; simpl in *;
      destruct (String.eqb data _) in Hdec; try discriminate;
      injection Hdec as <-; exists DemoLists.riders_text; split; reflexivity.
Qed.

Lemma acceptOrder_outcomes_witness :
  let req := {| Accept_OrderID := "o1"; Accept_RestaurantID := "r1" |} in
  (acceptOrder (Ok req) Demo.fresh).1 =
    {| code := 200; body := JSONObject [("status", "accepted")] |}
  ∧ kafka (acceptOrder (Ok req) Demo.fresh).2 !! "orders" = Some ["Order o1 Accept Order"]
  ∧ acceptOrder (Ok {| Accept_OrderID := ""; Accept_RestaurantID := "r1" |}) Demo.fresh =
      ({| code := 400;
          body := JSONObject [("error", "Missing order_id or restaurant_id")] |},
       Demo.fresh).
Proof.
  intros req.
  destruct (proj2 (acceptOrder_outcomes req Demo.fresh)) as [_ [Hresp Hkafka]];
    [discriminate | discriminate |].
  split; [exact Hresp|]. split; [rewrite Hkafka; apply lookup_insert_eq|].
  apply (acceptOrder_outcomes {| Accept_OrderID := ""; Accept_RestaurantID := "r1" |}).
  left. reflexivity.
Defined.

Lemma confirmDelivery_publish_failure_witness :
  let req := {| Deliver_OrderID := "o1"; Deliver_RiderID := "rd1" |} in
  let w := Demo.with_faults [Some "dial tcp 127.0.0.1:9092: connection refused"] Demo.fresh in
  (confirmDelivery (Ok req) w).1 =
    {| code := 500;
       body := JSONObject
         [("error", "failed to publish to Kafka: dial tcp 127.0.0.1:9092: connection refused")] |}
  ∧ kafka (confirmDelivery (Ok req) w).2 = ∅.
Proof.
  intros req w.
  destruct (confirmDelivery_publish_failure req
              "dial tcp 127.0.0.1:9092: connection refused" w)
    as (Hresp & Hkafka & _); [discriminate | discriminate | reflexivity |].
  split; [exact Hresp | exact Hkafka].
Defined.

Lemma placeOrder_publish_failure_witness :
  let order := Demo.order_r1 (Some Demo.two_items) in
  let w := Demo.with_faults [None; None; Some "broker down"] Demo.fresh in
  (placeOrder (L := Demo.lib) (Ok order) w).1 =
    {| code := 500; body := JSONObject [("error", "Failed to publish order event")] |}
  ∧ kafka (placeOrder (L := Demo.lib) (Ok order) w).2 = ∅
  ∧ redis (placeOrder (L := Demo.lib) (Ok order) w).2 !! "r1" = Some Demo.marshalled_text.
Proof.
  intros order w.
  destruct (placeOrder_publish_failure (L := Demo.lib) order Demo.menu_r1 "broker down" w)
    as (Hresp & Hkafka & Hredis & _).
  - discriminate.
  - discriminate.
  - vm_compute. reflexivity.
  - vm_compute. reflexivity.
  - split; [exact Hresp|]. split; [exact Hkafka|].
    rewrite Hredis. vm_compute. reflexivity.
Defined.

Lemma placeOrder_ignores_client_fields_witness :
  let sent :=
    {| OrderID := "1"; Order_RestaurantID := "r1"; Items := Some Demo.two_items;
       TotalAmount := 1%float; Status := "delivered" |} in
  placeOrder (L := Demo.lib) (Ok sent) Demo.fresh =
  placeOrder (L := Demo.lib) (Ok (Demo.order_r1 (Some Demo.two_items))) Demo.fresh.
Proof.
  intros sent.
  apply (placeOrder_ignores_client_fields (L := Demo.lib)); reflexivity.
Defined.

Lemma placeOrder_prices_unknown_items_at_zero_witness :
  let items := [ {| MenuID := "m9"; Quantity := 3 |} ] in
  let order := Demo.order_r1 (Some items) in
  order_total (Items order) Demo.menu_r1 = 0%float
  ∧ code (placeOrder (L := Demo.lib) (Ok order) Demo.fresh).1 = 200.
Proof.
  intros items order.
  destruct (placeOrder_prices_unknown_items_at_zero (L := Demo.lib)
              order items Demo.menu_r1 Demo.fresh) as (Htotal & Hcode & _).
  - discriminate.
  - reflexivity.
  - apply (bool_decide_unpack _). vm_compute. exact I.
  - vm_compute. reflexivity.
  - vm_compute. reflexivity.
  - split; [exact Htotal | exact Hcode].
Defined.

(** The seed file of [Demo] is the menu of r1, not of r2. *)
Lemma demo_r2_not_seeded (menu : RestaurantMenu) :
  ¬ seeded (L := Demo.lib) "r2" Demo.fresh menu.
Proof.
  intros (file & Hfile & Hdec & Hid).
  vm_compute in Hfile. injection Hfile as <-.
  vm_compute in Hdec. injection Hdec as <-.
  discriminate Hid.
Qed.

Lemma fetch_failure_populates_nothing_witness :
  let order :=
    {| OrderID := ""; Order_RestaurantID := "r2"; Items := Some Demo.two_items;
       TotalAmount := 0%float; Status := "" |} in
  (placeOrder (L := Demo.lib) (Ok order) Demo.fresh).1 =
    {| code := 500; body := JSONObject [("error", "Failed to fetch restaurant menu")] |}
  ∧ redis (getMenuFromCache (L := Demo.lib) "r2" Demo.fresh).2 = ∅.
Proof.
  intros order.
  destruct (fetch_failure_populates_nothing (L := Demo.lib) order Demo.fresh)
    as (_ & Hredis & _ & Hcreate).
  - reflexivity.
  - reflexivity.
  - exact demo_r2_not_seeded.
  - split; [|exact Hredis].
    apply Hcreate; discriminate.
Defined.

Lemma getMenuFromCache_hit_witness :
  let w := (getMenuFromCache (L := Demo.lib) "r1" Demo.fresh).2 in
  (getMenuFromCache (L := Demo.lib) "r1" w).1 = Ok Demo.menu_r1
  ∧ trace (getMenuFromCache (L := Demo.lib) "r1" w).2 = trace w ++ [ERedisGet "r1"].
Proof.
  intros w.
  destruct (getMenuFromCache_hit (L := Demo.lib) "r1" Demo.marshalled_text w)
    as (Hres & Htrace & _).
  - reflexivity.
  - vm_compute. reflexivity.
  - split; [exact Hres | exact Htrace].
Defined.

Lemma broken_entry_is_never_repaired_witness :
  let w := set_redis (insert "r1" "{") Demo.fresh in
  (∀ r, r ∈ (repeated_Get (L := Demo.lib) "r1" 3 w).1 → ∃ msg, r = Err msg)
  ∧ redis (repeated_Get (L := Demo.lib) "r1" 3 w).2 !! "r1" = Some "{".
Proof.
  intros w.
  apply (broken_entry_is_never_repaired (L := Demo.lib) "r1" "{" "invalid character" 3 w).
  - vm_compute. reflexivity.
  - reflexivity.
Defined.

Lemma getMenuFromCache_writes_own_key_witness :
  redis (getMenuFromCache (L := Demo.lib) "r1" Demo.fresh).2 !! "restaurant" = None.
Proof.
  rewrite (proj1 (getMenuFromCache_writes_own_key (L := Demo.lib) "r1" Demo.fresh)
             "restaurant"); [reflexivity | discriminate].
Defined.

Lemma seed_file_holds_one_restaurant_witness :
  let w' := Demo.with_faults [None; Some "timeout"] Demo.fresh in
  "r1" = "r1" ∧ Demo.menu_r1 = Demo.menu_r1 ∧ RestaurantID Demo.menu_r1 = "r1".
Proof.
  intros w'.
  apply (seed_file_holds_one_restaurant (L := Demo.lib) "r1" "r1" Demo.fresh w');
    try reflexivity; vm_compute; reflexivity.
Defined.

Lemma getMenu_agrees_with_getMenuFromCache_witness :
  (getMenu (L := Demo.lib) "r1" Demo.fresh).1 =
    {| code := 200; body := JSONMenu Demo.menu_r1 |}
  ∧ redis (getMenu (L := Demo.lib) "r1" Demo.fresh).2 =
      redis (getMenuFromCache (L := Demo.lib) "r1" Demo.fresh).2.
Proof.
  destruct (getMenu_agrees_with_getMenuFromCache (L := Demo.lib) "r1" Demo.fresh)
    as [Hredis Hres]; [discriminate|].
  split; [exact Hres | exact Hredis].
Defined.

Lemma getMenu_then_getMenuFromCache_witness :
  let w := (getMenu (L := Demo.lib) "r1" Demo.fresh).2 in
  (getMenuFromCache (L := Demo.lib) "r1" w).1 = Ok Demo.menu_r1.
Proof.
  intros w.
  apply (getMenu_then_getMenuFromCache (L := Demo.lib) (HL := demo_lib_ok)
           "r1" Demo.fresh w Demo.menu_r1).
  - discriminate.
  - vm_compute. reflexivity.
  - reflexivity.
  - reflexivity.
  - vm_compute. reflexivity.
Defined.

Lemma failed_reads_leave_the_cache_witness :
  let w := Demo.with_faults [Some "i/o timeout"] DemoLists.fresh in
  redis (getMenu (L := Demo.lib) "" w).2 = ∅
  ∧ redis (getRestaurant (C := DemoLists.lists) w).2 = ∅
  ∧ redis (getRider (C := DemoLists.lists) w).2 = ∅.
Proof.
  intros w.
  destruct (failed_reads_leave_the_cache (L := Demo.lib) (C := DemoLists.lists) w)
    as (Hmenu & Hrestaurant & Hrider).
  split; [|split].
  - apply Hmenu. discriminate.
  - apply Hrestaurant. discriminate.
  - apply Hrider. discriminate.
Defined.

Lemma list_handlers_write_own_key_witness :
  redis (getRestaurant (C := DemoLists.lists) DemoLists.fresh).2 !! "rider" = None
  ∧ redis (getRider (C := DemoLists.lists) DemoLists.fresh).2 !! "restaurant" = None.
Proof.
  destruct (list_handlers_write_own_key (C := DemoLists.lists) DemoLists.fresh)
    as (Hrestaurant & Hrider & _).
  split.
  - rewrite Hrestaurant; [reflexivity | discriminate].
  - rewrite Hrider; [reflexivity | discriminate].
Defined.

Lemma getRestaurant_repeatable_witness :
  let w := (getRestaurant (C := DemoLists.lists) DemoLists.fresh).2 in
  (getRestaurant (C := DemoLists.lists) w).1 =
    {| list_code := 200; list_body := ListUnder "restaurant" DemoLists.restaurants |}.
Proof.
  intros w.
  apply (getRestaurant_repeatable (C := DemoLists.lists) (HC := demo_lists_ok)
           DemoLists.fresh w DemoLists.restaurants).
  - vm_compute. reflexivity.
  - reflexivity.
  - reflexivity.
  - vm_compute. reflexivity.
Defined.

Lemma getRider_repeatable_witness :
  let w := (getRider (C := DemoLists.lists) DemoLists.fresh).2 in
  (getRider (C := DemoLists.lists) w).1 =
    {| list_code := 200; list_body := ListUnder "rider" DemoLists.riders |}.
Proof.
  intros w.
  apply (getRider_repeatable (C := DemoLists.lists) (HC := demo_lists_ok)
           DemoLists.fresh w DemoLists.riders).
  - vm_compute. reflexivity.
  - reflexivity.
  - reflexivity.
  - vm_compute. reflexivity.
Defined.

Lemma rider_list_shadows_menu_rider_witness :
  let w := (getRider (C := DemoLists.lists) DemoLists.fresh).2 in
  (getMenuFromCache (L := Demo.lib) "rider" w).1 =
    Err "failed to parse cached menu: invalid character"
  ∧ trace (getMenuFromCache (L := Demo.lib) "rider" w).2 = trace w ++ [ERedisGet "rider"].
Proof.
  intros w.
  apply (rider_list_shadows_menu_rider (L := Demo.lib) (C := DemoLists.lists)
           DemoLists.fresh w DemoLists.riders).
  - reflexivity.
  - reflexivity.
  - reflexivity.
  - vm_compute. reflexivity.
  - reflexivity.
  - vm_compute. reflexivity.
Defined.


Lemma relay_keeps_its_sources_witness :
  let req := {| Deliver_OrderID := "o1"; Deliver_RiderID := "rd1" |} in
  let w := (confirmDelivery (Ok req) Demo.fresh).2 in
  (committed_offset (consumeOrderDeliveredEvent 4 w).2
     ≤ reader_offset (consumeOrderDeliveredEvent 4 w).2)%nat
  ∧ (reader_offset (consumeOrderDeliveredEvent 4 w).2 ≤ 1)%nat.
Proof.
  intros req w.
  destruct (relay_keeps_its_sources 4 w) as (_ & _ & _ & _ & Hcommitted & Hbound).
  split.
  - apply Hcommitted. vm_compute. lia.
  - apply Hbound. vm_compute. lia.
Defined.

Lemma relay_forwards_pending_in_order_witness :
  let w1 := (acceptOrder (Ok {| Accept_OrderID := "o1"; Accept_RestaurantID := "r1" |})
               Demo.fresh).2 in
  let w2 := (confirmPickup (Ok {| Pickup_OrderID := "o1"; Pickup_RiderID := "rd1" |}) w1).2 in
  (consumeOrderDeliveredEvent 3 w2).1 = Waiting
  ∧ notifications_log (consumeOrderDeliveredEvent 3 w2).2 =
      [ "Notification: Order o1 Accept Order";
        "Notification: Order o1 Confirm Pickup" ].
Proof.
  intros w1 w2.
  destruct (relay_forwards_pending_in_order 3 w2) as (Hwaiting & Hforwarded & _).
  - reflexivity.
  - vm_compute. lia.
  - split; [exact Hwaiting|]. rewrite Hforwarded. vm_compute. reflexivity.
Defined.

Lemma relay_forwards_every_order_event_witness :
  let req := {| Accept_OrderID := "o1"; Accept_RestaurantID := "r1" |} in
  notifications_log (relay_iteration (acceptOrder (Ok req) Demo.fresh).2).2 =
    ["Notification: Order o1 Accept Order"].
Proof.
  intros req.
  destruct (relay_forwards_every_order_event Demo.fresh) as (Haccept & _).
  - reflexivity.
  - vm_compute. reflexivity.
  - apply (Haccept req); discriminate.
Defined.
